(** * IA02-UTC: SAT encodings of Sudoku (TP3) and graph colouring (TP2)

    A shallow embedding of [TP/TP3/main.py] and [TP/TP2/main.py], and the
    properties of the variable numbering, the clause generators, the DIMACS
    writer and the model decoder.

    Python integers are unbounded, so they are [Z]; [//] and [%] are floor
    division and modulo, which for a positive divisor are [Z.div] and
    [Z.modulo].  Python lists are [list]; a list indexed or updated in place
    is read with stdpp's lookup and updated with stdpp's insert, and the
    [IndexError] Python raises out of range is written out. *)

From Stdlib Require Import ZArith List String Ascii Lia DecimalString.
From Stdlib Require Import DecimalPos DecimalZ.
From stdpp Require Import base list gmap strings.
Import ListNotations.

Local Open Scope Z_scope.

(** ** Python built-ins used by both programs *)

Module Py.

(** Exceptions carry what [str(e)] prints. *)
Inductive exn : Type :=
| IndexError
| Exception (msg : string).

(** [str(e)] *)
Definition str_exn (e : exn) : string :=
  match e with
  | IndexError => "list index out of range"
  | Exception msg => msg
  end.

Inductive result (A : Type) : Type :=
| Ok (a : A)
| Raise (e : exn).
Arguments Ok {A} a.
Arguments Raise {A} e.

Definition bind {A B} (m : result A) (k : A -> result B) : result B :=
  match m with
  | Ok a => k a
  | Raise e => Raise e
  end.

(** [range(lo, hi)] *)
Definition range (lo hi : Z) : list Z :=
  map (fun n => lo + Z.of_nat n) (seq 0 (Z.to_nat (hi - lo))).

(** [len(l)] *)
Definition len {A} (l : list A) : Z := Z.of_nat (length l).

(** [l[i]]: a negative index counts from the end; out of range raises. *)
Definition getitem {A} (l : list A) (i : Z) : result A :=
  let k := if i <? 0 then i + len l else i in
  if k <? 0 then Raise IndexError
  else match l !! Z.to_nat k with
       | Some x => Ok x
       | None => Raise IndexError
       end.

(** [l[i] = x] *)
Definition setitem {A} (l : list A) (i : Z) (x : A) : result (list A) :=
  let k := if i <? 0 then i + len l else i in
  if k <? 0 then Raise IndexError
  else if k <? len l then Ok (<[Z.to_nat k := x]> l)
  else Raise IndexError.

(** [itertools.combinations(l, 2)]: the pairs of elements at positions
    [p < q], in lexicographic order of the positions. *)
Fixpoint combinations2 {A} (l : list A) : list (A * A) :=
  match l with
  | [] => []
  | x :: xs => map (fun y => (x, y)) xs ++ combinations2 xs
  end.

(** [str(n)] for an integer: its decimal writing, with a minus sign for a
    negative one. *)
Definition str (n : Z) : string := NilZero.string_of_int (Z.to_int n).

(** [sep.join(l)] *)
Definition join (sep : string) (l : list string) : string :=
  String.concat sep l.

(** The line feed, written [\n] in the sources. *)
Definition LF : ascii := "010"%char.
Definition nl : string := String LF EmptyString.

(** [s[start:stop]] on a string: negative bounds count from the end and
    both are clipped to the string. *)
Definition slice (s : string) (start stop : Z) : string :=
  let n := Z.of_nat (String.length s) in
  let clip i := if i <? 0 then Z.max (i + n) 0 else Z.min i n in
  substring (Z.to_nat (clip start)) (Z.to_nat (clip stop - clip start)) s.

(** [s.split(sep)] for a one-character separator. *)
Fixpoint split (sep : ascii) (s : string) : list string :=
  match s with
  | EmptyString => [EmptyString]
  | String c s' =>
      if Ascii.eqb c sep then EmptyString :: split sep s'
      else match split sep s' with
           | [] => [String c EmptyString]
           | w :: ws => String c w :: ws
           end
  end.

(** A [for] loop whose body may raise: the exception leaves the loop. *)
Fixpoint for_ {A S} (l : list A) (body : A -> S -> result S) (s : S)
  : result S :=
  match l with
  | [] => Ok s
  | x :: xs => bind (body x s) (for_ xs body)
  end.

(** A list comprehension whose element expression may raise. *)
Fixpoint comprehension {A B} (f : A -> result B) (l : list A)
  : result (list B) :=
  match l with
  | [] => Ok []
  | x :: xs =>
      bind (f x) (fun y => bind (comprehension f xs) (fun ys => Ok (y :: ys)))
  end.

(** What a run leaves behind besides its value. *)
Inductive event : Type :=
| Print (line : string)
| WriteFile (filename contents : string).

(** [s * n] on a string: [n] copies of [s], none when [n <= 0]. *)
Definition str_mul (s : string) (n : Z) : string :=
  String.concat EmptyString (repeat s (Z.to_nat n)).

(** The ASCII characters [str.isspace] accepts: tab to carriage return,
    the four separators 28 to 31, and the space. *)
Definition is_space (ch : ascii) : bool :=
  let n := nat_of_ascii ch in
  ((9 <=? n) && (n <=? 13) || (28 <=? n) && (n <=? 32))%nat.

Fixpoint lstrip (s : string) : string :=
  match s with
  | EmptyString => EmptyString
  | String ch s' => if is_space ch then lstrip s' else s
  end.

Fixpoint rstrip (s : string) : string :=
  match s with
  | EmptyString => EmptyString
  | String ch s' =>
      match rstrip s' with
      | EmptyString => if is_space ch then EmptyString else String ch EmptyString
      | t => String ch t
      end
  end.

(** [s.strip()], on strings of ASCII characters. *)
Definition strip (s : string) : string := rstrip (lstrip s).

(** A computation that prints and writes on its way to a value or to an
    exception. *)
Definition io (A : Type) : Type := (list event * result A)%type.

Definition io_ret {A} (a : A) : io A := ([], Ok a).

Definition io_bind {A B} (m : io A) (k : A -> io B) : io B :=
  match m with
  | (out, Ok a) => let '(out', r) := k a in (out ++ out', r)
  | (out, Raise e) => (out, Raise e)
  end.

(** [print(line)] *)
Definition print (line : string) : io unit := ([Print line], Ok tt).

(** An expression that may raise and prints nothing. *)
Definition lift {A} (r : result A) : io A := ([], r).

(** A [for] loop whose body prints and may raise. *)
Fixpoint io_for {A S} (l : list A) (body : A -> S -> io S) (s : S) : io S :=
  match l with
  | [] => io_ret s
  | x :: xs => io_bind (body x s) (io_for xs body)
  end.

End Py.

Import Py.

Local Open Scope string_scope.
Local Open Scope list_scope.
Local Open Scope Z_scope.

(** ** TP3: Sudoku *)

Module TP3.

(** The type aliases of the source. *)
Abbreviation Grid := (list (list Z)).
Abbreviation PropositionnalVariable := Z.
Abbreviation Literal := Z.
Abbreviation Clause := (list Z).
Abbreviation ClauseBase := (list (list Z)).
Abbreviation Model := (list Z).

Definition cell_to_variable (i j val : Z) : PropositionnalVariable :=
  i * 81 + j * 9 + (val - 1) + 1.

Definition variable_to_cell (var : PropositionnalVariable) : Z * Z * Z :=
  let i := (var - 1) / (9 * 9) in
  let j := ((var - 1) / 9) mod 9 in
  let val := (var - 1) mod 9 in
  (i, j, val).

(** The body of the loop of [model_to_grid]: [grid[i][j] = val + 1] reads
    the row [grid[i]] and updates it in place. *)
Definition model_to_grid_body (var : Literal) (grid : Grid) : result Grid :=
  if var >? 0 then
    let '(i, j, val) := variable_to_cell var in
    bind (getitem grid i) (fun row =>
    bind (setitem row j (val + 1)) (fun row' =>
    setitem grid i row'))
  else Ok grid.

(** The parameter [nb_vals] of the source is never read and is left out. *)
Definition model_to_grid (model : Model) : result Grid :=
  let grid := map (fun _ => map (fun _ => 0) (range 0 9)) (range 0 9) in
  for_ model model_to_grid_body grid.

Definition at_least_one (variables : list PropositionnalVariable) : Clause :=
  variables.

Definition unique (variables : list PropositionnalVariable) : ClauseBase :=
  [at_least_one variables]
    ++ map (fun '(var1, var2) => [- var1; - var2]) (combinations2 variables).

Definition create_cell_constraints : ClauseBase :=
  flat_map (fun i =>
    flat_map (fun j =>
      let cell_vars := map (fun k => cell_to_variable i j k) (range 1 10) in
      unique cell_vars)
    (range 0 9))
  (range 0 9).

Definition create_line_constraints : ClauseBase :=
  flat_map (fun i =>
    flat_map (fun k =>
      let ligne_var := map (fun j => cell_to_variable i j k) (range 0 9) in
      unique ligne_var)
    (range 1 10))
  (range 0 9).

Definition create_column_constraints : ClauseBase :=
  flat_map (fun j =>
    flat_map (fun k =>
      let colonne_var := map (fun i => cell_to_variable i j k) (range 0 9) in
      unique colonne_var)
    (range 1 10))
  (range 0 9).

Definition create_box_constraints : ClauseBase :=
  flat_map (fun box_row =>
    flat_map (fun box_columns =>
      flat_map (fun k =>
        let box_vars :=
          flat_map (fun i =>
            map (fun j =>
              let row := box_row * 3 + i in
              let col := box_columns * 3 + j in
              cell_to_variable row col k)
            (range 0 3))
          (range 0 3) in
        unique box_vars)
      (range 1 10))
    (range 0 3))
  (range 0 3).

Definition create_value_constraints (grid : Grid) : result ClauseBase :=
  for_ (range 0 9) (fun i contraintes =>
    for_ (range 0 9) (fun j contraintes =>
      bind (getitem grid i) (fun row =>
      bind (getitem row j) (fun x =>
      if negb (x =? 0) then
        bind (getitem grid i) (fun row =>
        bind (getitem row j) (fun k =>
        Ok (contraintes ++ [[cell_to_variable i j k]])))
      else Ok contraintes)))
    contraintes)
  [].

Definition generate_problem (grid : Grid) : result ClauseBase :=
  bind (create_value_constraints grid) (fun value_constraints =>
  Ok (create_cell_constraints
        ++ create_line_constraints
        ++ create_column_constraints
        ++ create_box_constraints
        ++ value_constraints)).

Definition clause_to_dimacs (clauses : ClauseBase) (nb_vars : Z) : string :=
  let nb_clauses := len clauses in
  let header :=
    ("p cnf " ++ str nb_vars ++ " " ++ str nb_clauses ++ nl)%string in
  let clauses_lines :=
    map (fun clause => (join " " (map str clause) ++ " 0")%string) clauses in
  (header ++ join nl clauses_lines ++ nl)%string.

Section Solver.

(** The world outside the program: [open(filename, "w", newline="")] and
    the [write] that follows store the text under the name or raise (a name
    that cannot be opened, a directory, a full disk);
    [subprocess.run([cmd, filename], capture_output=True, check=True, ...)]
    gives the standard output of the solver or raises (no executable,
    nonzero exit status); [str.splitlines] and [int] are Python's. *)
Variable file_write : string -> string -> result unit.
Variable subprocess_run : list string -> result string.
Variable splitlines : string -> list string.
Variable int : string -> result Z.

Definition write_dimacs_file (dimacs filename : string) : io unit :=
  match file_write filename dimacs with
  | Ok _ => ([WriteFile filename dimacs], Ok tt)
  | Raise e => ([], Raise e)
  end.

Definition exec_gophersat (filename cmd : string) : result (bool * Model) :=
  bind (subprocess_run [cmd; filename]) (fun stdout =>
  let lines := splitlines stdout in
  bind (getitem lines 1) (fun line1 =>
  if negb (String.eqb line1 "s SATISFIABLE") then Ok (false, [])
  else
    bind (getitem lines 2) (fun line2 =>
    let model := split " "%char (slice line2 2 (-2)) in
    bind (comprehension int model) (fun model' =>
    Ok (true, model'))))).

(** The value returned (or the exception raised) together with what was
    written and printed on the way.  The clause base and the file come
    before the [try]: what they raise leaves [solve_sudoku], and only what
    [exec_gophersat] raises is caught. *)
Definition solve_sudoku (grid : Grid) (cmd filename : string)
  : list event * result (bool * option Grid) :=
  match generate_problem grid with
  | Raise e => ([], Raise e)
  | Ok clauses =>
      let nb_vars := 729 in
      let dimacs_str := clause_to_dimacs clauses nb_vars in
      match write_dimacs_file dimacs_str filename with
      | (written, Raise e) => (written, Raise e)
      | (written, Ok _) =>
          let out :=
            written
              ++ [Print (nl ++ "Exécution de : " ++ cmd ++ " "
                            ++ filename)%string] in
          match exec_gophersat filename cmd with
          | Raise e =>
              (out ++ [Print ("Erreur lors de l'exécution : "
                                ++ str_exn e)%string],
               Ok (false, None))
          | Ok (satisfiable, model) =>
              if satisfiable then
                match model_to_grid model with
                | Ok g => (out, Ok (true, Some g))
                | Raise e => (out, Raise e)
                end
              else
                (out ++ [Print "Ce Sudoku n'a pas de solution."],
                 Ok (false, None))
          end
      end
  end.

End Solver.

Definition example : Grid :=
  [ [5; 3; 5; 0; 7; 0; 0; 0; 0];
    [6; 0; 0; 1; 9; 5; 0; 0; 0];
    [0; 9; 8; 0; 0; 0; 0; 6; 0];
    [8; 0; 0; 0; 6; 0; 0; 0; 3];
    [4; 0; 0; 8; 0; 3; 0; 0; 1];
    [7; 0; 0; 0; 2; 0; 0; 0; 6];
    [0; 6; 0; 0; 0; 0; 2; 8; 0];
    [0; 0; 0; 4; 1; 9; 0; 0; 5];
    [0; 0; 0; 0; 8; 0; 0; 7; 9] ].

Definition example2 : Grid :=
  [ [0; 0; 0; 0; 0; 0; 0; 0; 0];
    [0; 0; 0; 0; 0; 0; 0; 0; 0];
    [0; 0; 0; 0; 0; 0; 0; 0; 0];
    [0; 0; 0; 0; 0; 0; 0; 0; 0];
    [0; 0; 0; 0; 0; 0; 0; 0; 0];
    [0; 0; 0; 0; 0; 0; 0; 0; 0];
    [0; 0; 0; 0; 0; 0; 0; 0; 0];
    [0; 0; 0; 0; 0; 0; 0; 0; 0];
    [0; 0; 0; 0; 0; 0; 0; 0; 1] ].

Definition example3 : Grid :=
  [ [5; 3; 0; 0; 7; 0; 0; 0; 0];
    [6; 0; 0; 1; 9; 5; 0; 0; 0];
    [0; 9; 8; 0; 0; 0; 0; 6; 0];
    [8; 0; 0; 0; 6; 0; 0; 0; 3];
    [4; 0; 0; 8; 0; 3; 0; 0; 1];
    [7; 0; 0; 0; 2; 0; 0; 0; 6];
    [0; 6; 0; 0; 0; 0; 2; 8; 0];
    [0; 0; 0; 4; 1; 9; 0; 0; 5];
    [0; 0; 0; 0; 8; 0; 0; 7; 9] ].

(** One turn of the inner loop of [pprint_grid]: the bar before the fourth
    and the seventh column, then the entry, or a dot when it is not
    positive.  The entry is read once for each test and once to print. *)
Definition pprint_cell (grid : Grid) (i j : Z) (row : string) : io string :=
  let row :=
    if (j mod 3 =? 0) && negb (j =? 0) then (row ++ "|")%string else row in
  let entry := bind (getitem grid i) (fun r => getitem r j) in
  io_bind (lift entry) (fun x =>
  if negb (x =? 0) then
    io_bind (lift entry) (fun y =>
    if y >? 0 then
      io_bind (lift entry) (fun z => io_ret (row ++ " " ++ str z)%string)
    else io_ret (row ++ ".")%string)
  else io_ret (row ++ ".")%string).

Definition pprint_grid (grid : Grid) : io unit :=
  io_bind
    (io_for (range 0 9) (fun i _ =>
       io_bind (if (i mod 3 =? 0) && negb (i =? 0)
                then print (str_mul "-" 21) else io_ret tt) (fun _ =>
       io_bind (io_for (range 0 9) (pprint_cell grid i) EmptyString)
               (fun row => print (strip row))))
       tt)
    (fun _ => print EmptyString).

Section Main.

Variable file_write : string -> string -> result unit.
Variable subprocess_run : list string -> result string.
Variable splitlines : string -> list string.
Variable int : string -> result Z.

Definition gophersat_paths : list string := ["/usr/local/bin/gophersat"].

(** One turn of the loop of [main], from a value of [solution_found]: what
    is printed, the new [solution_found], and whether the loop breaks.
    The bare [except] drops every exception and goes on; [solution_found]
    is set before the solution is printed. *)
Definition main_attempt (grid : Grid) (cmd_path : string)
           (solution_found : bool) : list event * bool * bool :=
  match solve_sudoku file_write subprocess_run splitlines int grid cmd_path
                     "sudoku.cnf"
  with
  | (out, Raise _) => (out, solution_found, false)
  | (out, Ok (ok, solution)) =>
      if ok then
        let shown :=
          io_bind (print ("Grille résolue " ++ nl)%string) (fun _ =>
          match solution with
          | Some g => pprint_grid g
          | None =>
              lift (Raise (Exception
                             "'NoneType' object is not subscriptable"))
          end) in
        match shown with
        | (out', Ok _) => (out ++ out', true, true)
        | (out', Raise _) => (out ++ out', true, false)
        end
      else (out, solution_found, false)
  end.

Fixpoint main_loop (grid : Grid) (paths : list string)
         (solution_found : bool) : list event * bool :=
  match paths with
  | [] => ([], solution_found)
  | cmd_path :: rest =>
      let '(out, found, break) := main_attempt grid cmd_path solution_found in
      if break then (out, found)
      else let '(out', found') := main_loop grid rest found in
           (out ++ out', found')
  end.

Definition main : io unit :=
  let grid := example in
  io_bind (print ("Grille initiale " ++ nl)%string) (fun _ =>
  io_bind (pprint_grid grid) (fun _ =>
  let '(out, solution_found) := main_loop grid gophersat_paths false in
  io_bind (out, Ok tt) (fun _ =>
  if negb solution_found then
    print "Erreur : Gophersat n'a pas été trouvé ou le Sudoku n'a pas de solution."
  else io_ret tt))).

End Main.

End TP3.

(** ** TP2: graph colouring *)

Module TP2.

(** What the program reads of a [networkx] graph: [list(graph.nodes)] and
    [list(graph.edges)]. *)
Record Graph : Type := { nodes : list Z; edges : list (Z * Z) }.

Definition couleurs : list string := ["R"; "G"; "B"].

Definition couleurs_to_int : gmap string Z :=
  <["R" := 1]> (<["G" := 2]> (<["B" := 3]> ∅)).

(** [[couleurs_to_int[c] for c in couleurs]]; a missing key raises. *)
Definition couleurs_int : result (list Z) :=
  comprehension
    (fun c => match couleurs_to_int !! c with
              | Some n => Ok n
              | None => Raise (Exception "KeyError")
              end)
    couleurs.

Definition variables (graph : Graph) : Z :=
  len (nodes graph) * len couleurs.

Definition c (graph : Graph) : Z :=
  len (nodes graph) * len couleurs
  + len (edges graph) * len couleurs
  + len (nodes graph).

(** The list [clauses] once the three loops are over; each element is one
    line of the file, ended by its line feed. *)
Definition clauses (graph : Graph) (couleurs_int : list Z) : list string :=
  let line (clause : list Z) : string :=
    (join " " (map str clause) ++ " 0" ++ nl)%string in
  map (fun j => line (map (fun i => j * len couleurs + i) couleurs_int))
      (nodes graph)
  ++ flat_map (fun j =>
       map (fun pair =>
              line [- (j * len couleurs + fst pair);
                    - (j * len couleurs + snd pair)])
           (combinations2 couleurs_int))
       (nodes graph)
  ++ flat_map (fun '(u, v) =>
       map (fun i =>
              line [- (u * len couleurs + i); - (v * len couleurs + i)])
           couleurs_int)
       (edges graph).

Definition header (graph : Graph) : string :=
  ("p cnf " ++ str (variables graph) ++ " " ++ str (c graph) ++ nl)%string.

(** The successive [f.write] calls on [graph.cnf], in order.  The parameter
    [num_colors] is never read. *)
Definition generate_dimacs_cnf (graph : Graph) (num_colors : Z)
  : result (list string) :=
  bind couleurs_int (fun couleurs_int =>
  Ok (header graph :: clauses graph couleurs_int)).

(** The file the writes leave. *)
Definition file_contents (writes : list string) : string :=
  String.concat EmptyString writes.

End TP2.

(** ** Propositional semantics and the vocabulary of the statements *)

Module Sat.

Import TP3.

(** A truth assignment gives every propositional variable a value. *)
Definition assignment := Z -> bool.

(** A positive literal [v] holds when [v] is true, a negative one [-v]
    when [v] is false. *)
Definition eval_literal (a : assignment) (l : Literal) : bool :=
  if 0 <? l then a l else negb (a (- l)).

(** A clause is the disjunction of its literals. *)
Definition eval_clause (a : assignment) (clause : Clause) : bool :=
  existsb (eval_literal a) clause.

(** A clause base is the conjunction of its clauses. *)
Definition eval_base (a : assignment) (clauses : ClauseBase) : bool :=
  forallb (eval_clause a) clauses.

(** The assignment a model stands for: a variable is true when the model
    lists it as a positive literal. *)
Definition model_assignment (model : Model) : assignment :=
  fun v => existsb (Z.eqb v) model.

(** One signed literal per variable of [[1, 729]], in order. *)
Definition is_model (model : Model) : Prop :=
  map Z.abs model = range 1 730.

(** A 9x9 grid with entries in [[0, 9]]. *)
Definition is_grid (grid : Grid) : bool :=
  (length grid =? 9)%nat
  && forallb (fun row =>
                (length row =? 9)%nat
                && forallb (fun x => (0 <=? x) && (x <=? 9)) row)
             grid.

(** The entry of a grid at row [i] and column [j], for [i, j >= 0]. *)
Definition grid_at (grid : Grid) (i j : Z) : option Z :=
  match grid !! Z.to_nat i with
  | Some row => row !! Z.to_nat j
  | None => None
  end.

(** The given of the cell [(i, j)], if it has one: the triple of the row,
    the column and the nonzero entry. *)
Definition given (grid : Grid) (i j : Z) : list (Z * Z * Z) :=
  match grid_at grid i j with
  | Some k => if k =? 0 then [] else [(i, j, k)]
  | None => []
  end.

(** The givens of a grid, row by row: one triple per nonzero cell. *)
Definition givens (grid : Grid) : list (Z * Z * Z) :=
  flat_map (fun i => flat_map (fun j => given grid i j) (range 0 9))
           (range 0 9).

(** The unit clause of a given. *)
Definition unit_clause (g : Z * Z * Z) : Clause :=
  let '(i, j, k) := g in [cell_to_variable i j k].

(** A positive literal of the model decodes to the cell [(i, j)]. *)
Definition touches (model : Model) (i j : Z) : Prop :=
  exists var, In var model /\ 0 < var
              /\ fst (variable_to_cell var) = (i, j).

(** What the decoder leaves in the cell [(i, j)] of a grid that held
    [init] there: the digit of the last positive literal of the model that
    decodes to this cell. *)
Definition decoded (model : Model) (i j : Z) (init : Z) : Z :=
  fold_left
    (fun acc var =>
       if bool_decide (0 < var /\ fst (variable_to_cell var) = (i, j))
       then snd (variable_to_cell var) + 1
       else acc)
    model init.

(** Nine rows of nine entries. *)
Definition shape9 (grid : Grid) : Prop :=
  length grid = 9%nat /\ Forall (fun row => length row = 9%nat) grid.

(** The number of line feeds of a string. *)
Fixpoint count_LF (s : string) : nat :=
  match s with
  | EmptyString => 0
  | String ch s' => (if Ascii.eqb ch LF then 1 else 0) + count_LF s'
  end.

(** Equality of clauses, to look a clause up in a clause base. *)
Definition clause_eqb (c1 c2 : Clause) : bool :=
  (length c1 =? length c2)%nat
  && forallb (fun '(x, y) => x =? y) (combine c1 c2).

(** The variables of a clause base: every literal without its sign. *)
Definition variables_of (clauses : ClauseBase) : list Z :=
  map Z.abs (concat clauses).

(** The grid without any given. *)
Definition empty : Grid := repeat (repeat 0 9%nat) 9%nat.

(** A solved Sudoku, and the model a solver returns for it. *)
Definition solved : Grid :=
  [ [5; 3; 4; 6; 7; 8; 9; 1; 2];
    [6; 7; 2; 1; 9; 5; 3; 4; 8];
    [1; 9; 8; 3; 4; 2; 5; 6; 7];
    [8; 5; 9; 7; 6; 1; 4; 2; 3];
    [4; 2; 6; 8; 5; 3; 7; 9; 1];
    [7; 1; 3; 9; 2; 4; 8; 5; 6];
    [9; 6; 1; 5; 3; 7; 2; 8; 4];
    [2; 8; 7; 4; 1; 9; 6; 3; 5];
    [3; 4; 5; 2; 8; 6; 1; 7; 9] ].

Definition model_of (grid : Grid) : Model :=
  map (fun v =>
         let '(i, j, val) := variable_to_cell v in
         match grid_at grid i j with
         | Some x => if x =? val + 1 then v else - v
         | None => - v
         end)
      (range 1 730).

(** Two stand-ins for the solver: one that cannot be launched, one that
    answers that there is no model. *)
Definition run_missing (args : list string) : result string :=
  Raise (Exception "[Errno 2] No such file or directory: 'gophersat'").

Definition run_unsat (args : list string) : result string :=
  Ok ("c solving sudoku.cnf" ++ nl ++ "s UNSATISFIABLE" ++ nl)%string.

(** Lines cut at the line feeds, which is what [str.splitlines] does on
    the two outputs above up to a last empty line. *)
Definition splitlines_stub (s : string) : list string := split LF s.

Definition int_stub (s : string) : result Z :=
  Raise (Exception "invalid literal for int() with base 10").

End Sat.

(** ** The rules of Sudoku, to state what the encoding means *)

Module Rules.

Import TP3 Sat.

(** A completed grid that follows the rules: every cell holds a digit of
    [[1, 9]], and every digit occurs exactly once in every row, in every
    column and in every 3x3 box. *)
Definition valid_solution (g : Grid) : Prop :=
  (forall i j, 0 <= i < 9 -> 0 <= j < 9 ->
     exists k, grid_at g i j = Some k /\ 1 <= k <= 9)
  /\ (forall i k, 0 <= i < 9 -> 1 <= k <= 9 ->
        exists j, 0 <= j < 9 /\ grid_at g i j = Some k
                  /\ forall j', 0 <= j' < 9 ->
                       grid_at g i j' = Some k -> j' = j)
  /\ (forall j k, 0 <= j < 9 -> 1 <= k <= 9 ->
        exists i, 0 <= i < 9 /\ grid_at g i j = Some k
                  /\ forall i', 0 <= i' < 9 ->
                       grid_at g i' j = Some k -> i' = i)
  /\ (forall box_row box_columns k,
        0 <= box_row < 3 -> 0 <= box_columns < 3 -> 1 <= k <= 9 ->
        exists i j,
          (0 <= i < 3 /\ 0 <= j < 3)
          /\ grid_at g (box_row * 3 + i) (box_columns * 3 + j) = Some k
          /\ forall i' j', 0 <= i' < 3 -> 0 <= j' < 3 ->
               grid_at g (box_row * 3 + i') (box_columns * 3 + j') = Some k ->
               i' = i /\ j' = j).

(** The completed grid [sol] keeps every given of [puzzle]. *)
Definition extends (sol puzzle : Grid) : Prop :=
  forall i j k, 0 <= i < 9 -> 0 <= j < 9 ->
    grid_at puzzle i j = Some k -> k <> 0 -> grid_at sol i j = Some k.

(** The same rules as a check that computes. *)
Definition once {A : Type} (p : A -> bool) (l : list A) : bool :=
  match List.filter p l with
  | [_] => true
  | _ => false
  end.

Definition has (g : Grid) (k i j : Z) : bool :=
  match grid_at g i j with
  | Some x => x =? k
  | None => false
  end.

Definition is_solution (g : Grid) : bool :=
  forallb (fun i =>
    forallb (fun j =>
      match grid_at g i j with
      | Some k => (1 <=? k) && (k <=? 9)
      | None => false
      end) (range 0 9)) (range 0 9)
  && forallb (fun i =>
       forallb (fun k => once (fun j => has g k i j) (range 0 9))
               (range 1 10)) (range 0 9)
  && forallb (fun j =>
       forallb (fun k => once (fun i => has g k i j) (range 0 9))
               (range 1 10)) (range 0 9)
  && forallb (fun box_row =>
       forallb (fun box_columns =>
         forallb (fun k =>
           once (fun '(i, j) =>
                   has g k (box_row * 3 + i) (box_columns * 3 + j))
                (flat_map (fun i => map (fun j => (i, j)) (range 0 3))
                          (range 0 3)))
           (range 1 10)) (range 0 3)) (range 0 3).

(** Whether a character occurs in a string. *)
Fixpoint occurs (ch : ascii) (s : string) : bool :=
  match s with
  | EmptyString => false
  | String c s' => Ascii.eqb c ch || occurs ch s'
  end.

(** The variables of a box for a digit, as [create_box_constraints] lists
    them in [box_vars]. *)
Definition box_vars (box_row box_columns k : Z) : list Z :=
  flat_map (fun i =>
    map (fun j => cell_to_variable (box_row * 3 + i) (box_columns * 3 + j) k)
        (range 0 3))
    (range 0 3).

(** A stand-in for the solver that answers with the model of [solved], in
    the three lines the program reads, and a stand-in for [int] on plain
    decimal writings. *)
Definition run_sat (args : list string) : result string :=
  Ok ("c solving sudoku.cnf" ++ nl ++ "s SATISFIABLE" ++ nl
        ++ "v " ++ join " " (map str (model_of solved)) ++ " 0" ++ nl)%string.

Definition int_decimal (s : string) : result Z :=
  match NilZero.int_of_string s with
  | Some d => Ok (Z.of_int d)
  | None => Raise (Exception "invalid literal for int() with base 10")
  end.

(** The clauses of the colouring, as the lists of literals [clause] that
    [generate_dimacs_cnf] builds in its three loops before it writes each
    of them as a line. *)
Definition clause_lists (graph : TP2.Graph) (couleurs_int : list Z)
  : list (list Z) :=
  map (fun j => map (fun i => j * len TP2.couleurs + i) couleurs_int)
      (TP2.nodes graph)
  ++ flat_map (fun j =>
       map (fun pair =>
              [- (j * len TP2.couleurs + fst pair);
               - (j * len TP2.couleurs + snd pair)])
           (combinations2 couleurs_int))
       (TP2.nodes graph)
  ++ flat_map (fun '(u, v) =>
       map (fun i =>
              [- (u * len TP2.couleurs + i); - (v * len TP2.couleurs + i)])
           couleurs_int)
       (TP2.edges graph).

(** The line of a clause in [graph.cnf]. *)
Definition clause_line (clause : list Z) : string :=
  (join " " (map str clause) ++ " 0" ++ nl)%string.

(** A triangle, to try the colouring on. *)
Definition triangle : TP2.Graph :=
  {| TP2.nodes := [0; 1; 2]; TP2.edges := [(0, 1); (0, 2); (1, 2)] |}.

(** Two stand-ins for the file system: one where every write succeeds, one
    where none does. *)
Definition write_ok (filename contents : string) : result unit := Ok tt.

Definition write_denied (filename contents : string) : result unit :=
  Raise (Exception "[Errno 13] Permission denied").

(** A row as it is shown: a positive entry after a space, any other entry
    as a dot, a bar before the fourth and the seventh entry, and the spaces
    at both ends taken off. *)
Definition show_entry (x : Z) : string :=
  if 0 <? x then (" " ++ str x)%string else ".".

Definition show_bar (j : Z) : string :=
  if (j =? 3) || (j =? 6) then "|" else EmptyString.

Definition show_row (row : list Z) : string :=
  strip (String.concat EmptyString
           (map (fun '(j, x) => (show_bar j ++ show_entry x)%string)
                (combine (range 0 9) row))).

(** The model that lists an assignment over the variables of [[1, 729]]:
    [v] when the variable is true, [-v] when it is false. *)
Definition model_from (a : assignment) : Model :=
  map (fun v => if a v then v else - v) (range 1 730).

End Rules.

Import TP3 Sat.
Import Rules.


(** ** Python built-ins: basic facts *)

Section Builtins.

Context {A : Type}.

Lemma In_range (lo hi x : Z) : In x (range lo hi) <-> lo <= x < hi.
Proof.
  unfold range. rewrite in_map_iff. split.
  - intros (n & <- & Hn). apply in_seq in Hn. lia.
  - intros H. exists (Z.to_nat (x - lo)). split; [lia|].
    apply in_seq. lia.
Qed.

Lemma length_range (lo hi : Z) : length (range lo hi) = Z.to_nat (hi - lo).
Proof. unfold range. now rewrite length_map, length_seq. Qed.

Lemma getitem_Ok (l : list A) (i : Z) (x : A) :
  0 <= i -> l !! Z.to_nat i = Some x -> getitem l i = Ok x.
Proof.
  intros Hi Hx. unfold getitem.
  destruct (Z.ltb_spec i 0); [lia|].
  destruct (Z.ltb_spec i 0); [lia|]. now rewrite Hx.
Qed.

Lemma getitem_ge (l : list A) (i : Z) :
  len l <= i -> getitem l i = Raise IndexError.
Proof.
  intros Hi. unfold getitem, len in *.
  destruct (Z.ltb_spec i 0); [lia|].
  destruct (Z.ltb_spec i 0); [lia|].
  rewrite lookup_ge_None_2; [reflexivity | lia].
Qed.

Lemma setitem_Ok (l : list A) (i : Z) (x : A) :
  0 <= i < len l -> setitem l i x = Ok (<[Z.to_nat i := x]> l).
Proof.
  intros Hi. unfold setitem.
  destruct (Z.ltb_spec i 0); [lia|].
  destruct (Z.ltb_spec i 0); [lia|].
  destruct (Z.ltb_spec i (len l)); [reflexivity | lia].
Qed.

End Builtins.

Lemma append_String (ch : ascii) (s1 s2 : string) :
  (String ch s1 ++ s2 = String ch (s1 ++ s2))%string.
Proof. reflexivity. Qed.

Lemma append_assoc (s1 s2 s3 : string) :
  ((s1 ++ s2) ++ s3 = s1 ++ (s2 ++ s3))%string.
Proof.
  induction s1 as [|ch s1 IH]; [reflexivity|].
  rewrite !append_String. now f_equal.
Qed.

(** ** The variable numbering *)

Section Numbering.

Lemma variable_to_cell_bounds (v : Z) :
  1 <= v <= 729 ->
  let '(i, j, val) := variable_to_cell v in
  0 <= i < 9 /\ 0 <= j < 9 /\ 0 <= val < 9.
Proof.
  intros Hv. unfold variable_to_cell. change (9 * 9) with 81.
  Z.div_mod_to_equations. lia.
Qed.

Lemma variable_to_cell_encode (i j val : Z) :
  0 <= j < 9 -> 1 <= val <= 9 ->
  variable_to_cell (cell_to_variable i j val) = (i, j, val - 1).
Proof.
  intros Hj Hval. unfold variable_to_cell, cell_to_variable.
  change (9 * 9) with 81.
  repeat f_equal; Z.div_mod_to_equations; lia.
Qed.

Lemma cell_to_variable_decode (v : Z) :
  let '(i, j, val) := variable_to_cell v in
  cell_to_variable i j (val + 1) = v.
Proof.
  unfold variable_to_cell, cell_to_variable. change (9 * 9) with 81.
  Z.div_mod_to_equations. lia.
Qed.

Lemma cell_to_variable_bounds (i j val : Z) :
  0 <= i < 9 -> 0 <= j < 9 -> 1 <= val <= 9 ->
  1 <= cell_to_variable i j val <= 729.
Proof. unfold cell_to_variable. lia. Qed.

Lemma cell_to_variable_inj (i j val i' j' val' : Z) :
  0 <= j < 9 -> 1 <= val <= 9 -> 0 <= j' < 9 -> 1 <= val' <= 9 ->
  cell_to_variable i j val = cell_to_variable i' j' val' ->
  i = i' /\ j = j' /\ val = val'.
Proof. unfold cell_to_variable. lia. Qed.

(** C1, as the code has it: [variable_to_cell] returns the digit counted
    from zero.  For every valid atom, decoding its variable gives the row,
    the column and the digit minus one; for every variable of [[1, 729]],
    the decoded triple is a row and a column of [[0, 9)] and a zero-based
    digit of [[0, 9)], and encoding it with the digit put back to
    [val + 1] gives the variable again. *)
Theorem numbering_roundtrip_zero_based (i j val v : Z) :
  0 <= i < 9 -> 0 <= j < 9 -> 1 <= val <= 9 -> 1 <= v <= 729 ->
  variable_to_cell (cell_to_variable i j val) = (i, j, val - 1)
  /\ 1 <= cell_to_variable i j val <= 729
  /\ (let '(i', j', val') := variable_to_cell v in
      0 <= i' < 9 /\ 0 <= j' < 9 /\ 0 <= val' < 9
      /\ cell_to_variable i' j' (val' + 1) = v).
Proof.
  intros Hi Hj Hval Hv. split; [|split].
  - now apply variable_to_cell_encode.
  - now apply cell_to_variable_bounds.
  - pose proof (variable_to_cell_bounds v Hv) as Hb.
    pose proof (cell_to_variable_decode v) as Hd.
    destruct (variable_to_cell v) as [[i' j'] val']. tauto.
Qed.

Lemma numbering_roundtrip_zero_based_witness :
  variable_to_cell (cell_to_variable 8 8 9) = (8, 8, 8)
  /\ 1 <= cell_to_variable 8 8 9 <= 729
  /\ (let '(i', j', val') := variable_to_cell 365 in
      0 <= i' < 9 /\ 0 <= j' < 9 /\ 0 <= val' < 9
      /\ cell_to_variable i' j' (val' + 1) = 365).
Proof. apply (numbering_roundtrip_zero_based 8 8 9 365); lia. Defined.

(** C1 as stated fails on the first atom: the variable of row 0, column 0,
    digit 1 decodes to the digit 0, and encoding the decoded triple of the
    variable 1 gives 0. *)
Lemma numbering_roundtrip_counterexample :
  (0 <= 0 < 9 /\ 1 <= 1 <= 9 /\ 1 <= 1 <= 729)
  /\ variable_to_cell (cell_to_variable 0 0 1) <> (0, 0, 1)
  /\ (let '(i, j, val) := variable_to_cell 1 in cell_to_variable i j val)
     <> 1.
Proof. split; [lia|]. split; vm_compute; discriminate. Qed.

End Numbering.

(** ** The DIMACS writer *)

Section Writer.

(** C7: the clause base [[1, -2], [3]] over 3 variables is written as the
    header line, one line per clause closed by the sentinel 0, and a line
    feed after the last clause. *)
Theorem clause_to_dimacs_format :
  clause_to_dimacs [[1; -2]; [3]] 3
  = ("p cnf 3 2" ++ nl ++ "1 -2 0" ++ nl ++ "3 0" ++ nl)%string.
Proof. reflexivity. Qed.

(** C9: for every variable count [n], the empty clause base is written as
    the header for [n] variables and 0 clauses followed by two line
    feeds: a blank line follows the header. *)
Theorem clause_to_dimacs_empty (n : Z) :
  clause_to_dimacs [] n = ("p cnf " ++ str n ++ " 0" ++ nl ++ nl)%string.
Proof.
  unfold clause_to_dimacs. cbn [map join String.concat len length].
  change (str (Z.of_nat 0)) with "0"%string.
  rewrite !append_assoc. reflexivity.
Qed.

End Writer.

(** ** Pairs of a list and the exactly-one group *)

Section Combinations.

Context {A : Type}.

Lemma In_combinations2_In (l : list A) (x y : A) :
  In (x, y) (combinations2 l) -> In x l /\ In y l.
Proof.
  induction l as [|z l IH]; simpl; [tauto|].
  rewrite in_app_iff, in_map_iff. intros [(w & Hw & Hin) | Hin].
  - inversion Hw; subst. auto.
  - destruct (IH Hin). auto.
Qed.

Lemma In_combinations2_neq (l : list A) (x y : A) :
  List.NoDup l -> In (x, y) (combinations2 l) -> x <> y.
Proof.
  induction 1 as [|z l Hz Hl IH]; simpl; [tauto|].
  rewrite in_app_iff, in_map_iff. intros [(w & Hw & Hin) | Hin].
  - inversion Hw; subst. intros ->. apply Hz.
    now apply list_elem_of_In.
  - now apply IH.
Qed.

Lemma In_combinations2_total (l : list A) (x y : A) :
  In x l -> In y l -> x <> y ->
  In (x, y) (combinations2 l) \/ In (y, x) (combinations2 l).
Proof.
  induction l as [|z l IH]; simpl; [tauto|].
  intros [-> | Hx] [-> | Hy] Hxy; try congruence.
  - left. apply in_app_iff. left. now apply in_map.
  - right. apply in_app_iff. left. now apply in_map.
  - destruct (IH Hx Hy Hxy); [left | right]; apply in_app_iff; now right.
Qed.

Lemma length_combinations2 (l : list A) :
  (2 * length (combinations2 l) = length l * (length l - 1))%nat.
Proof.
  induction l as [|z l IH]; simpl; [reflexivity|].
  rewrite length_app, length_map. nia.
Qed.

End Combinations.

Section ExactlyOne.

Variable a : assignment.

Lemma eval_positive (x : Z) : 0 < x -> eval_literal a x = a x.
Proof. unfold eval_literal. destruct (Z.ltb_spec 0 x); [reflexivity | lia]. Qed.

Lemma eval_negative (x : Z) : 0 < x -> eval_literal a (- x) = negb (a x).
Proof.
  unfold eval_literal. intros Hx.
  destruct (Z.ltb_spec 0 (- x)); [lia|]. now rewrite Z.opp_involutive.
Qed.

Lemma eval_pair_false (x y : Z) :
  0 < x -> 0 < y -> a x = true -> a y = true ->
  eval_clause a [- x; - y] = false.
Proof.
  intros Hx Hy Hax Hay. unfold eval_clause. simpl.
  rewrite !eval_negative, Hax, Hay by assumption. reflexivity.
Qed.

Lemma eval_pair_true (x y : Z) :
  0 < x -> 0 < y -> eval_clause a [- x; - y] = true ->
  a x = false \/ a y = false.
Proof.
  intros Hx Hy. unfold eval_clause. simpl.
  rewrite !eval_negative by assumption.
  destruct (a x), (a y); simpl; auto.
Qed.

Lemma eval_at_least_one (variables : list Z) :
  (forall x, In x variables -> 0 < x) ->
  eval_clause a (at_least_one variables) = true
  <-> exists x, In x variables /\ a x = true.
Proof.
  intros Hpos. unfold eval_clause, at_least_one.
  rewrite existsb_exists. split; intros (x & Hx & Hax); exists x.
  - rewrite eval_positive in Hax by auto. auto.
  - rewrite eval_positive by auto. auto.
Qed.

Lemma In_unique (variables : list Z) (clause : Clause) :
  In clause (unique variables)
  <-> clause = at_least_one variables
      \/ exists x y, In (x, y) (combinations2 variables)
                     /\ clause = [- x; - y].
Proof.
  unfold unique. rewrite in_app_iff, in_map_iff. simpl. split.
  - intros [[<- | []] | ([x y] & <- & Hin)]; eauto.
  - intros [-> | (x & y & Hin & ->)]; [auto|].
    right. now exists (x, y).
Qed.

(** The pairwise clauses of a satisfied group leave at most one of its
    variables true. *)
Lemma unique_at_most_one (variables : list Z) (x y : Z) :
  (forall x, In x variables -> 0 < x) ->
  eval_base a (unique variables) = true ->
  In x variables -> In y variables -> a x = true -> a y = true -> x = y.
Proof.
  intros Hpos Hsat Hx Hy Hax Hay.
  destruct (Z.eq_dec x y) as [|Hne]; [assumption | exfalso].
  unfold eval_base in Hsat. rewrite forallb_forall in Hsat.
  destruct (In_combinations2_total variables x y Hx Hy Hne) as [Hin | Hin].
  - assert (Hc : eval_clause a [- x; - y] = true)
      by (apply Hsat, In_unique; eauto).
    rewrite eval_pair_false in Hc by auto. discriminate.
  - assert (Hc : eval_clause a [- y; - x] = true)
      by (apply Hsat, In_unique; eauto).
    rewrite eval_pair_false in Hc by auto. discriminate.
Qed.

(** C3: for a list of distinct positive variables, an assignment
    satisfies every clause of [unique] exactly when one variable of the
    list, and no other, is true; and two distinct true variables of the
    list falsify the pairwise clause of [unique] that negates both. *)
Theorem unique_exactly_one (variables : list Z) :
  List.NoDup variables ->
  (forall x, In x variables -> 0 < x) ->
  (eval_base a (unique variables) = true
   <-> exists x, In x variables /\ a x = true
                 /\ forall y, In y variables -> a y = true -> y = x)
  /\ (forall x y, In x variables -> In y variables -> x <> y ->
        a x = true -> a y = true ->
        exists clause,
          In clause (unique variables)
          /\ clause <> at_least_one variables
          /\ (clause = [- x; - y] \/ clause = [- y; - x])
          /\ eval_clause a clause = false).
Proof.
  intros Hnd Hpos. split.
  - split.
    + intros Hsat.
      assert (Hone : eval_clause a (at_least_one variables) = true).
      { unfold eval_base in Hsat. rewrite forallb_forall in Hsat.
        apply Hsat, In_unique. now left. }
      apply eval_at_least_one in Hone; [|assumption].
      destruct Hone as (x & Hx & Hax). exists x. repeat split; try assumption.
      intros y Hy Hay. now apply (unique_at_most_one variables).
    + intros (x & Hx & Hax & Huniq).
      unfold eval_base. apply forallb_forall. intros clause Hin.
      apply In_unique in Hin. destruct Hin as [-> | (u & v & Huv & ->)].
      * apply eval_at_least_one; eauto.
      * destruct (In_combinations2_In _ _ _ Huv) as [Hu Hv].
        pose proof (In_combinations2_neq _ _ _ Hnd Huv) as Hne.
        unfold eval_clause. simpl. rewrite !eval_negative by auto.
        destruct (a u) eqn:Hau, (a v) eqn:Hav; try reflexivity.
        exfalso. apply Hne.
        now rewrite (Huniq u Hu Hau), (Huniq v Hv Hav).
  - intros x y Hx Hy Hne Hax Hay.
    assert (Hlen : forall u v : Z,
               0 < u -> [- u; - v] <> at_least_one variables).
    { intros u v Hu Heq. unfold at_least_one in Heq.
      assert (0 < - u) by (apply Hpos; rewrite <- Heq; simpl; auto).
      lia. }
    destruct (In_combinations2_total variables x y Hx Hy Hne) as [Hin | Hin].
    + exists [- x; - y]. repeat split; auto.
      * apply In_unique. eauto.
      * apply eval_pair_false; auto.
    + exists [- y; - x]. repeat split; auto.
      * apply In_unique. eauto.
      * apply eval_pair_false; auto.
Qed.

End ExactlyOne.

Lemma unique_exactly_one_witness :
  (eval_base (Z.eqb 2) (unique [1; 2; 3]) = true
   <-> exists x, In x [1; 2; 3] /\ (2 =? x) = true
                 /\ forall y, In y [1; 2; 3] -> (2 =? y) = true -> y = x)
  /\ (forall x y, In x [1; 2; 3] -> In y [1; 2; 3] -> x <> y ->
        (2 =? x) = true -> (2 =? y) = true ->
        exists clause,
          In clause (unique [1; 2; 3])
          /\ clause <> at_least_one [1; 2; 3]
          /\ (clause = [- x; - y] \/ clause = [- y; - x])
          /\ eval_clause (Z.eqb 2) clause = false).
Proof.
  apply (unique_exactly_one (Z.eqb 2) [1; 2; 3]).
  - repeat (apply List.NoDup_cons; [simpl; lia|]). apply List.NoDup_nil.
  - simpl. lia.
Defined.

(** ** The model decoder *)

Section Decoder.

Lemma grid_at_is_Some (g : Grid) (i j : Z) :
  shape9 g -> 0 <= i < 9 -> 0 <= j < 9 -> exists x, grid_at g i j = Some x.
Proof.
  intros [Hlen Hrows] Hi Hj. unfold grid_at.
  destruct (lookup_lt_is_Some_2 g (Z.to_nat i)) as [row Hrow]; [lia|].
  rewrite Hrow.
  pose proof (Forall_lookup_1 _ _ _ _ Hrows Hrow) as Hl. simpl in Hl.
  destruct (lookup_lt_is_Some_2 row (Z.to_nat j)) as [x Hx]; [lia|].
  eauto.
Qed.

(** One turn of the loop on a literal of [[1, 729]]: the write succeeds
    and changes the decoded cell only. *)
Lemma model_to_grid_body_Ok (var : Z) (g : Grid) :
  shape9 g -> 0 < var <= 729 ->
  exists g',
    model_to_grid_body var g = Ok g' /\ shape9 g'
    /\ forall i j, 0 <= i -> 0 <= j ->
         grid_at g' i j
         = if bool_decide (fst (variable_to_cell var) = (i, j))
           then Some (snd (variable_to_cell var) + 1)
           else grid_at g i j.
Proof.
  intros [Hlen Hrows] Hvar.
  pose proof (variable_to_cell_bounds var ltac:(lia)) as Hb.
  unfold model_to_grid_body.
  destruct (Z.gtb_spec var 0) as [_|]; [|lia].
  destruct (variable_to_cell var) as [[i0 j0] val] eqn:Hcell.
  destruct Hb as (Hi0 & Hj0 & Hval). simpl fst. simpl snd.
  destruct (lookup_lt_is_Some_2 g (Z.to_nat i0)) as [row Hrow]; [lia|].
  pose proof (Forall_lookup_1 _ _ _ _ Hrows Hrow) as Hl. simpl in Hl.
  rewrite (getitem_Ok g i0 row) by (lia || assumption). simpl.
  rewrite setitem_Ok by (unfold len; lia). simpl.
  rewrite setitem_Ok by (unfold len; lia).
  eexists. split; [reflexivity|]. split.
  - split; [now rewrite length_insert|].
    apply Forall_insert; [assumption|]. now rewrite length_insert.
  - intros i j Hi Hj. unfold grid_at.
    destruct (decide (i0 = i)) as [<-|Hne].
    + rewrite list_lookup_insert_eq by lia. rewrite Hrow.
      destruct (decide (j0 = j)) as [<-|Hnej].
      * rewrite bool_decide_eq_true_2 by reflexivity.
        apply list_lookup_insert_eq. lia.
      * rewrite bool_decide_eq_false_2 by congruence.
        apply list_lookup_insert_ne. lia.
    + rewrite bool_decide_eq_false_2 by congruence.
      rewrite list_lookup_insert_ne by lia. reflexivity.
Qed.

(** A positive literal above 729 decodes to a row index beyond the last
    one, and the read of that row raises. *)
Lemma model_to_grid_body_Raise (var : Z) (g : Grid) :
  shape9 g -> 729 < var ->
  8 < fst (fst (variable_to_cell var))
  /\ model_to_grid_body var g = Raise IndexError.
Proof.
  intros [Hlen Hrows] Hvar.
  assert (Hrow : 9 <= (var - 1) / (9 * 9)).
  { change (9 * 9) with 81. Z.div_mod_to_equations. lia. }
  split; [simpl; lia|].
  unfold model_to_grid_body, variable_to_cell.
  destruct (Z.gtb_spec var 0) as [_|]; [|lia].
  rewrite getitem_ge by (unfold len; lia). reflexivity.
Qed.

Lemma model_to_grid_body_nonpositive (var : Z) (g : Grid) :
  var <= 0 -> model_to_grid_body var g = Ok g.
Proof.
  intros Hvar. unfold model_to_grid_body.
  destruct (Z.gtb_spec var 0); [lia | reflexivity].
Qed.

Lemma decoded_cons (var : Z) (model : Model) (i j init : Z) :
  decoded (var :: model) i j init
  = decoded model i j
      (if bool_decide (0 < var /\ fst (variable_to_cell var) = (i, j))
       then snd (variable_to_cell var) + 1
       else init).
Proof. reflexivity. Qed.

(** The loop over a model whose positive literals are at most 729. *)
Lemma model_to_grid_loop (model : Model) (g : Grid) :
  shape9 g ->
  (forall var, In var model -> 0 < var -> var <= 729) ->
  exists g',
    for_ model model_to_grid_body g = Ok g' /\ shape9 g'
    /\ forall i j x, 0 <= i -> 0 <= j ->
         grid_at g i j = Some x ->
         grid_at g' i j = Some (decoded model i j x).
Proof.
  revert g. induction model as [|var model IH]; intros g Hg Hmodel.
  - exists g. simpl. auto.
  - simpl for_. destruct (Z.lt_ge_cases 0 var) as [Hpos | Hneg].
    + destruct (model_to_grid_body_Ok var g Hg) as (g1 & Hbody & Hg1 & Hat).
      { split; [assumption|]. apply Hmodel; simpl; auto. }
      rewrite Hbody. simpl bind.
      destruct (IH g1 Hg1) as (g' & Hloop & Hg' & Hat').
      { intros v Hv. apply Hmodel. simpl. auto. }
      exists g'. repeat split; try assumption; try apply Hg'.
      intros i j x Hi Hj Hx. rewrite decoded_cons.
      apply Hat'; try assumption. rewrite Hat by assumption.
      destruct (decide (fst (variable_to_cell var) = (i, j))) as [He|He].
      * rewrite !bool_decide_eq_true_2 by auto. reflexivity.
      * rewrite !bool_decide_eq_false_2 by tauto. assumption.
    + rewrite model_to_grid_body_nonpositive by assumption. simpl bind.
      destruct (IH g Hg) as (g' & Hloop & Hg' & Hat').
      { intros v Hv. apply Hmodel. simpl. auto. }
      exists g'. repeat split; try assumption; try apply Hg'.
      intros i j x Hi Hj Hx. rewrite decoded_cons.
      rewrite bool_decide_eq_false_2 by lia. now apply Hat'.
Qed.

(** The loop over a model that holds a literal above 729. *)
Lemma model_to_grid_loop_Raise (model : Model) (g : Grid) (v : Z) :
  shape9 g -> In v model -> 729 < v ->
  for_ model model_to_grid_body g = Raise IndexError.
Proof.
  revert g. induction model as [|var model IH]; intros g Hg Hin Hv.
  - destruct Hin.
  - simpl for_. destruct (Z.lt_ge_cases 729 var) as [Hbig | Hsmall].
    + destruct (model_to_grid_body_Raise var g Hg Hbig) as [_ ->].
      reflexivity.
    + destruct Hin as [-> | Hin]; [lia|].
      destruct (Z.lt_ge_cases 0 var) as [Hpos | Hneg].
      * destruct (model_to_grid_body_Ok var g Hg) as (g1 & -> & Hg1 & _);
          [lia|]. simpl bind. now apply IH.
      * rewrite model_to_grid_body_nonpositive by assumption.
        simpl bind. now apply IH.
Qed.

(** The decoded cell is the initial entry when no positive literal
    decodes to it, and otherwise the digit of such a literal. *)
Lemma decoded_cases (model : Model) (i j init : Z) :
  (decoded model i j init = init /\ ~ touches model i j)
  \/ (exists var, In var model /\ 0 < var
                  /\ fst (variable_to_cell var) = (i, j)
                  /\ decoded model i j init
                     = snd (variable_to_cell var) + 1).
Proof.
  revert init. induction model as [|var model IH]; intros init.
  - left. split; [reflexivity|]. intros (v & [] & _).
  - rewrite decoded_cons.
    match goal with |- context [decoded model i j ?x] =>
      destruct (IH x) as [[Heq Hno] | (v & Hv & Hpos & Hcell & Heq)] end.
    + rewrite Heq.
      destruct (decide (0 < var /\ fst (variable_to_cell var) = (i, j)))
        as [[Hpos Hcell] | Hmiss].
      * right. exists var. rewrite bool_decide_eq_true_2 by auto.
        simpl. auto.
      * left. rewrite bool_decide_eq_false_2 by assumption.
        split; [reflexivity|].
        intros (v & [<- | Hv] & Hpos & Hcell); [tauto|].
        apply Hno. exists v. auto.
    + right. exists v. simpl. auto.
Qed.

Lemma shape9_initial :
  shape9 (map (fun _ => map (fun _ => 0) (range 0 9)) (range 0 9)).
Proof. split; [reflexivity|]. repeat constructor. Qed.

Lemma grid_at_initial (i j : Z) :
  0 <= i < 9 -> 0 <= j < 9 ->
  grid_at (map (fun _ => map (fun _ => 0) (range 0 9)) (range 0 9)) i j
  = Some 0.
Proof.
  intros Hi Hj.
  assert (Hi' : In i (range 0 9)) by (apply In_range; lia).
  assert (Hj' : In j (range 0 9)) by (apply In_range; lia).
  vm_compute in Hi', Hj'.
  repeat (destruct Hi' as [<- | Hi']; [
    repeat (destruct Hj' as [<- | Hj']; [reflexivity|]); destruct Hj' |]).
  destruct Hi'.
Qed.

End Decoder.

(** C10: when every positive literal of the model is in [[1, 729]], the
    decoder raises nothing and returns nine rows of nine entries, where a
    cell some positive literal decodes to holds a digit of [[1, 9]] and any
    other cell holds 0; and a literal above 729 decodes to a row index above
    8, on which the decoder raises [IndexError]. *)
Theorem model_to_grid_in_range (model : Model) (v : Z) :
  ((forall var, In var model -> 0 < var -> 1 <= var <= 729) ->
   exists g,
     model_to_grid model = Ok g /\ shape9 g
     /\ forall i j, 0 <= i < 9 -> 0 <= j < 9 ->
          (touches model i j ->
           exists x, grid_at g i j = Some x /\ 1 <= x <= 9)
          /\ (~ touches model i j -> grid_at g i j = Some 0))
  /\ (In v model -> 729 < v ->
      8 < fst (fst (variable_to_cell v))
      /\ model_to_grid model = Raise IndexError).
Proof.
  split.
  - intros Hmodel. unfold model_to_grid.
    destruct (model_to_grid_loop model _ shape9_initial)
      as (g & Hloop & Hg & Hat).
    { intros var Hin Hpos. now apply Hmodel. }
    exists g. repeat split; try assumption; try apply Hg.
    + intros Htouch.
      rewrite (Hat i j 0) by (lia || now apply grid_at_initial).
      destruct (decoded_cases model i j 0)
        as [[_ Hno] | (var & Hin & Hpos & Hcell & ->)]; [tauto|].
      eexists. split; [reflexivity|].
      unfold variable_to_cell. simpl snd. Z.div_mod_to_equations. lia.
    + intros Hno.
      rewrite (Hat i j 0) by (lia || now apply grid_at_initial).
      destruct (decoded_cases model i j 0)
        as [[-> _] | (var & Hin & Hpos & Hcell & _)]; [reflexivity|].
      exfalso. apply Hno. exists var. auto.
  - intros Hin Hv. split.
    + apply (model_to_grid_body_Raise v _ shape9_initial Hv).
    + unfold model_to_grid.
      now apply (model_to_grid_loop_Raise model _ v shape9_initial).
Qed.

Lemma model_to_grid_in_range_witness :
  (exists g,
     model_to_grid [1; -2; 729] = Ok g /\ shape9 g
     /\ forall i j, 0 <= i < 9 -> 0 <= j < 9 ->
          (touches [1; -2; 729] i j ->
           exists x, grid_at g i j = Some x /\ 1 <= x <= 9)
          /\ (~ touches [1; -2; 729] i j -> grid_at g i j = Some 0))
  /\ (8 < fst (fst (variable_to_cell 730))
      /\ model_to_grid [1; 730] = Raise IndexError).
Proof.
  split.
  - apply (model_to_grid_in_range [1; -2; 729] 0). simpl. lia.
  - apply (model_to_grid_in_range [1; 730] 730); simpl; lia.
Defined.

(** ** Grids and their givens *)

Section Givens.

Lemma is_grid_shape9 (grid : Grid) : is_grid grid = true -> shape9 grid.
Proof.
  unfold is_grid, shape9. rewrite andb_true_iff, forallb_forall.
  intros [Hlen Hrows]. apply Nat.eqb_eq in Hlen. split; [assumption|].
  apply List.Forall_forall. intros row Hrow.
  specialize (Hrows row Hrow). apply andb_true_iff in Hrows.
  now apply Nat.eqb_eq.
Qed.

Lemma is_grid_entry (grid : Grid) (i j k : Z) :
  is_grid grid = true -> grid_at grid i j = Some k -> 0 <= k <= 9.
Proof.
  unfold is_grid, grid_at. rewrite andb_true_iff, forallb_forall.
  intros [_ Hrows].
  destruct (grid !! Z.to_nat i) as [row|] eqn:Hrow; [|discriminate].
  intros Hk.
  assert (Hin : In row grid).
  { apply list_elem_of_In. eapply list_elem_of_lookup_2. eassumption. }
  specialize (Hrows row Hin). apply andb_true_iff in Hrows.
  destruct Hrows as [_ Hentries]. rewrite forallb_forall in Hentries.
  assert (Hink : In k row).
  { apply list_elem_of_In. eapply list_elem_of_lookup_2. eassumption. }
  specialize (Hentries k Hink). lia.
Qed.

Lemma for_flat_map {A B : Type} (l : list A)
      (body : A -> list B -> result (list B)) (f : A -> list B)
      (s : list B) :
  (forall x s, In x l -> body x s = Ok (s ++ f x)) ->
  for_ l body s = Ok (s ++ flat_map f l).
Proof.
  revert s. induction l as [|x l IH]; intros s Hbody; simpl.
  - now rewrite app_nil_r.
  - rewrite Hbody by (simpl; auto). simpl.
    rewrite IH by (intros; apply Hbody; simpl; auto).
    now rewrite <- app_assoc.
Qed.

Lemma map_flat_map' {A B C : Type} (g : B -> C) (f : A -> list B)
      (l : list A) :
  map g (flat_map f l) = flat_map (fun x => map g (f x)) l.
Proof.
  induction l as [|x l IH]; simpl; [reflexivity|].
  now rewrite map_app, IH.
Qed.

(** The value constraints of a well-formed grid: the unit clauses of its
    givens, row by row. *)
Lemma create_value_constraints_givens (grid : Grid) :
  shape9 grid ->
  create_value_constraints grid = Ok (map unit_clause (givens grid)).
Proof.
  intros Hgrid. unfold create_value_constraints, givens.
  rewrite map_flat_map'.
  rewrite (for_flat_map _ _
             (fun i => map unit_clause
                         (flat_map (fun j => given grid i j) (range 0 9))));
    [reflexivity|].
  intros i s Hi. apply In_range in Hi.
  rewrite map_flat_map'. apply for_flat_map.
  intros j s' Hj. apply In_range in Hj.
  destruct (grid_at_is_Some grid i j Hgrid Hi Hj) as [k Hk].
  unfold given. rewrite Hk. unfold grid_at in Hk.
  destruct (grid !! Z.to_nat i) as [row|] eqn:Hrow; [|discriminate].
  rewrite (getitem_Ok grid i row) by (lia || assumption). simpl.
  rewrite (getitem_Ok row j k) by (lia || assumption). simpl.
  destruct (k =? 0); simpl; [now rewrite app_nil_r | reflexivity].
Qed.

Lemma In_givens (grid : Grid) (i j k : Z) :
  In (i, j, k) (givens grid)
  <-> (0 <= i < 9 /\ 0 <= j < 9) /\ grid_at grid i j = Some k /\ k <> 0.
Proof.
  unfold givens. rewrite in_flat_map. split.
  - intros (i' & Hi & Hin). apply in_flat_map in Hin.
    destruct Hin as (j' & Hj & Hin). apply In_range in Hi, Hj.
    unfold given in Hin.
    destruct (grid_at grid i' j') as [k'|] eqn:Hk; [|destruct Hin].
    destruct (Z.eqb_spec k' 0); [destruct Hin|].
    destruct Hin as [Heq | []]. inversion Heq; subst. auto.
  - intros ([Hi Hj] & Hk & Hne). exists i. split; [now apply In_range|].
    apply in_flat_map. exists j. split; [now apply In_range|].
    unfold given. rewrite Hk.
    destruct (Z.eqb_spec k 0); [contradiction | simpl; auto].
Qed.

End Givens.

(** ** The clause base of a grid *)

Section Problem.

Lemma generate_problem_Ok (grid : Grid) :
  shape9 grid ->
  generate_problem grid
  = Ok (create_cell_constraints
          ++ create_line_constraints
          ++ create_column_constraints
          ++ create_box_constraints
          ++ map unit_clause (givens grid)).
Proof.
  intros Hgrid. unfold generate_problem.
  now rewrite create_value_constraints_givens.
Qed.

Lemma In_cell_constraints (i j : Z) (clause : Clause) :
  0 <= i < 9 -> 0 <= j < 9 ->
  In clause (unique (map (fun k => cell_to_variable i j k) (range 1 10))) ->
  In clause create_cell_constraints.
Proof.
  intros Hi Hj Hin. unfold create_cell_constraints.
  apply in_flat_map. exists i. split; [now apply In_range|].
  apply in_flat_map. exists j. split; [now apply In_range | assumption].
Qed.

Lemma families_length :
  length create_cell_constraints = (81 * 37)%nat
  /\ length create_line_constraints = (81 * 37)%nat
  /\ length create_column_constraints = (81 * 37)%nat
  /\ length create_box_constraints = (81 * 37)%nat.
Proof. repeat split; vm_compute; reflexivity. Qed.

Lemma families_variables :
  forallb (fun v => (1 <=? v) && (v <=? 729))
          (variables_of (create_cell_constraints
                           ++ create_line_constraints
                           ++ create_column_constraints
                           ++ create_box_constraints)) = true.
Proof. vm_compute. reflexivity. Qed.

Lemma cell_constraints_cover :
  forallb (fun v => existsb (Z.eqb v) (variables_of create_cell_constraints))
          (range 1 730) = true.
Proof. vm_compute. reflexivity. Qed.

Lemma variables_of_app (c1 c2 : ClauseBase) :
  variables_of (c1 ++ c2) = variables_of c1 ++ variables_of c2.
Proof. unfold variables_of. now rewrite concat_app, map_app. Qed.

Lemma variables_of_givens (grid : Grid) (v : Z) :
  is_grid grid = true ->
  In v (variables_of (map unit_clause (givens grid))) -> 1 <= v <= 729.
Proof.
  intros Hgrid. unfold variables_of. rewrite in_map_iff.
  intros (l & <- & Hl). apply in_concat in Hl.
  destruct Hl as (clause & Hclause & Hl). apply in_map_iff in Hclause.
  destruct Hclause as ([[i j] k] & <- & Hgiven).
  apply In_givens in Hgiven. destruct Hgiven as ([Hi Hj] & Hk & Hne).
  pose proof (is_grid_entry grid i j k Hgrid Hk).
  destruct Hl as [<- | []].
  pose proof (cell_to_variable_bounds i j k Hi Hj ltac:(lia)). lia.
Qed.

End Problem.

(** C2, as the code has it: each of the four families has 81 groups, not
    81, 9, 9 and 9.  For every 9x9 grid with entries in [[0, 9]], the clause
    base is the cell, line, column and box constraints, of [81 * 37] clauses
    each, followed by one unit clause per given; it has [324 * 37] clauses
    plus the number of givens; its variables are exactly the integers of
    [[1, 729]]; and [solve_sudoku] writes it with the variable count 729,
    first of all when the write succeeds, and raises what the write raises
    otherwise. *)
Theorem generate_problem_size (grid : Grid)
        (file_write : string -> string -> result unit)
        (subprocess_run : list string -> result string)
        (splitlines : string -> list string) (int : string -> result Z)
        (cmd filename : string) :
  is_grid grid = true ->
  exists clauses,
    generate_problem grid = Ok clauses
    /\ clauses = create_cell_constraints ++ create_line_constraints
                   ++ create_column_constraints ++ create_box_constraints
                   ++ map unit_clause (givens grid)
    /\ len create_cell_constraints = 81 * 37
    /\ len create_line_constraints = 81 * 37
    /\ len create_column_constraints = 81 * 37
    /\ len create_box_constraints = 81 * 37
    /\ len clauses = 324 * 37 + len (givens grid)
    /\ (forall v, In v (variables_of clauses) <-> 1 <= v <= 729)
    /\ (file_write filename (clause_to_dimacs clauses 729) = Ok tt ->
        exists rest,
          fst (solve_sudoku file_write subprocess_run splitlines int
                            grid cmd filename)
          = WriteFile filename (clause_to_dimacs clauses 729) :: rest)
    /\ (forall e,
          file_write filename (clause_to_dimacs clauses 729) = Raise e ->
          solve_sudoku file_write subprocess_run splitlines int
                       grid cmd filename
          = ([], Raise e)).
Proof.
  intros Hgrid. pose proof (is_grid_shape9 grid Hgrid) as Hshape.
  destruct families_length as (Hc & Hl & Hco & Hb).
  eexists. split; [now apply generate_problem_Ok|].
  split; [reflexivity|].
  unfold len. rewrite Hc, Hl, Hco, Hb.
  do 4 (split; [reflexivity|]). split; [|split; [|split]].
  - rewrite !length_app, length_map, Hc, Hl, Hco, Hb. lia.
  - intros v. split.
    + rewrite !app_assoc, variables_of_app, <- !app_assoc, in_app_iff.
      intros [Hin | Hin].
      * pose proof families_variables as Hall.
        rewrite forallb_forall in Hall. specialize (Hall v Hin). lia.
      * now apply (variables_of_givens grid).
    + intros Hv. rewrite variables_of_app, in_app_iff. left.
      pose proof cell_constraints_cover as Hall.
      rewrite forallb_forall in Hall.
      specialize (Hall v ltac:(apply In_range; lia)).
      apply existsb_exists in Hall. destruct Hall as (w & Hw & Heq).
      apply Z.eqb_eq in Heq. now subst.
  - intros Hwrite. unfold solve_sudoku, write_dimacs_file.
    rewrite generate_problem_Ok by assumption. rewrite Hwrite.
    destruct (exec_gophersat _ _ _ _ _) as [[[] model]|e];
      [destruct (model_to_grid model)| |]; eexists; reflexivity.
  - intros e Hwrite. unfold solve_sudoku, write_dimacs_file.
    rewrite generate_problem_Ok by assumption. rewrite Hwrite. reflexivity.
Qed.

Lemma generate_problem_size_witness :
  exists clauses,
    generate_problem example3 = Ok clauses
    /\ clauses = create_cell_constraints ++ create_line_constraints
                   ++ create_column_constraints ++ create_box_constraints
                   ++ map unit_clause (givens example3)
    /\ len create_cell_constraints = 81 * 37
    /\ len create_line_constraints = 81 * 37
    /\ len create_column_constraints = 81 * 37
    /\ len create_box_constraints = 81 * 37
    /\ len clauses = 324 * 37 + len (givens example3)
    /\ (forall v, In v (variables_of clauses) <-> 1 <= v <= 729)
    /\ (write_ok "sudoku.cnf" (clause_to_dimacs clauses 729) = Ok tt ->
        exists rest,
          fst (solve_sudoku write_ok run_unsat splitlines_stub int_stub
                            example3 "gophersat" "sudoku.cnf")
          = WriteFile "sudoku.cnf" (clause_to_dimacs clauses 729) :: rest)
    /\ (forall e,
          write_ok "sudoku.cnf" (clause_to_dimacs clauses 729) = Raise e ->
          solve_sudoku write_ok run_unsat splitlines_stub int_stub
                       example3 "gophersat" "sudoku.cnf"
          = ([], Raise e)).
Proof.
  apply (generate_problem_size example3 write_ok run_unsat splitlines_stub
           int_stub "gophersat" "sudoku.cnf").
  reflexivity.
Defined.

(** C2 as stated fails on the grid without givens: its clause base has
    11988 clauses, and [108 * 37] is 3996. *)
Lemma generate_problem_size_counterexample :
  is_grid empty = true
  /\ givens empty = []
  /\ exists clauses,
       generate_problem empty = Ok clauses
       /\ len clauses = 11988
       /\ len clauses <> 108 * 37 + len (givens empty).
Proof.
  split; [reflexivity|]. split; [reflexivity|].
  eexists. split; [apply generate_problem_Ok, is_grid_shape9; reflexivity|].
  split; vm_compute; [reflexivity | discriminate].
Qed.

(** ** Givens survive the decoding of a model *)

Section Soundness.

Lemma model_assignment_In (model : Model) (v : Z) :
  model_assignment model v = true <-> In v model.
Proof.
  unfold model_assignment. rewrite existsb_exists. split.
  - intros (w & Hw & Heq). apply Z.eqb_eq in Heq. now subst.
  - intros Hv. exists v. split; [assumption | apply Z.eqb_refl].
Qed.

Lemma is_model_bounds (model : Model) (v : Z) :
  is_model model -> In v model -> 1 <= Z.abs v <= 729.
Proof.
  intros Hmodel Hv.
  assert (Hin : In (Z.abs v) (map Z.abs model)) by now apply in_map.
  rewrite Hmodel in Hin. apply In_range in Hin. lia.
Qed.

Lemma eval_base_In (a : assignment) (clauses : ClauseBase) (clause : Clause) :
  eval_base a clauses = true -> In clause clauses ->
  eval_clause a clause = true.
Proof. unfold eval_base. rewrite forallb_forall. auto. Qed.

Lemma Ok_inj {A : Type} (x y : A) : Ok x = Ok y -> x = y.
Proof. intros H. injection H as H. exact H. Qed.

(** In an assignment that satisfies the cell constraints and the unit
    clauses of the givens, the only positive literal of the model that
    decodes to a given cell is the variable of the given. *)
Lemma given_cell_literal (grid : Grid) (model : Model) (i j k var : Z) :
  is_grid grid = true ->
  (forall clause, In clause create_cell_constraints ->
                  eval_clause (model_assignment model) clause = true) ->
  (forall clause, In clause (map unit_clause (givens grid)) ->
                  eval_clause (model_assignment model) clause = true) ->
  0 <= i < 9 -> 0 <= j < 9 -> grid_at grid i j = Some k -> k <> 0 ->
  In (cell_to_variable i j k) model
  /\ (In var model -> 0 < var -> fst (variable_to_cell var) = (i, j) ->
      snd (variable_to_cell var) + 1 = k).
Proof.
  intros Hgrid Hcells Hgivens Hi Hj Hk Hne.
  pose proof (is_grid_entry grid i j k Hgrid Hk) as Hrange.
  set (a := model_assignment model) in *.
  set (cell_vars := map (fun k => cell_to_variable i j k) (range 1 10)).
  assert (Hpos : forall x, In x cell_vars -> 0 < x).
  { intros x Hx. apply in_map_iff in Hx. destruct Hx as (d & <- & Hd).
    apply In_range in Hd.
    pose proof (cell_to_variable_bounds i j d Hi Hj ltac:(lia)). lia. }
  assert (Hgroup : eval_base a (unique cell_vars) = true).
  { apply forallb_forall. intros clause Hclause.
    apply Hcells. apply (In_cell_constraints i j); assumption. }
  assert (Hunit : a (cell_to_variable i j k) = true).
  { assert (Hc : eval_clause a [cell_to_variable i j k] = true).
    { apply Hgivens. apply in_map_iff. exists (i, j, k).
      split; [reflexivity|]. apply In_givens. auto. }
    unfold eval_clause in Hc. simpl in Hc.
    rewrite orb_false_r, eval_positive in Hc; [assumption|].
    pose proof (cell_to_variable_bounds i j k Hi Hj ltac:(lia)). lia. }
  clear Hcells Hgivens.
  split; [apply model_assignment_In; assumption|].
  intros Hvar Hvpos Hcell.
  pose proof (cell_to_variable_decode var) as Hdec.
  assert (Hval : 0 <= snd (variable_to_cell var) < 9).
  { unfold variable_to_cell. simpl. Z.div_mod_to_equations. lia. }
  destruct (variable_to_cell var) as [[i' j'] val] eqn:Hvc.
  simpl in Hcell, Hval |- *. inversion Hcell; subst i' j'.
  assert (Heq : var = cell_to_variable i j k).
  { apply (unique_at_most_one a cell_vars); try assumption.
    - rewrite <- Hdec. apply in_map_iff. exists (val + 1).
      split; [reflexivity | apply In_range; lia].
    - apply in_map_iff. exists k.
      split; [reflexivity | apply In_range; lia].
    - apply model_assignment_In; assumption. }
  rewrite <- Hdec in Heq.
  apply cell_to_variable_inj in Heq; lia.
Qed.

End Soundness.

(** C4: for every 9x9 grid with entries in [[0, 9]] and every model, one
    signed literal per variable of [[1, 729]], that satisfies all the
    clauses of [generate_problem], the decoder returns a grid that holds,
    in every cell where the input grid has a nonzero entry, that entry. *)
Theorem givens_preserved (grid : Grid) (model : Model) (clauses : ClauseBase) :
  is_grid grid = true ->
  is_model model ->
  generate_problem grid = Ok clauses ->
  eval_base (model_assignment model) clauses = true ->
  exists g,
    model_to_grid model = Ok g
    /\ forall i j k, 0 <= i < 9 -> 0 <= j < 9 ->
         grid_at grid i j = Some k -> k <> 0 -> grid_at g i j = Some k.
Proof.
  intros Hgrid Hmodel Hgen Hsat.
  pose proof (generate_problem_Ok grid (is_grid_shape9 grid Hgrid)) as Hok.
  rewrite Hgen in Hok. apply Ok_inj in Hok.
  assert (Hcells : forall clause, In clause create_cell_constraints ->
            eval_clause (model_assignment model) clause = true).
  { intros clause Hin. apply (eval_base_In _ clauses clause Hsat).
    rewrite Hok. apply in_app_iff. left. exact Hin. }
  assert (Hgivens : forall clause,
            In clause (map unit_clause (givens grid)) ->
            eval_clause (model_assignment model) clause = true).
  { intros clause Hin. apply (eval_base_In _ clauses clause Hsat).
    rewrite Hok. rewrite !in_app_iff. do 4 right. exact Hin. }
  clear Hok Hsat Hgen.
  unfold model_to_grid.
  destruct (model_to_grid_loop model _ shape9_initial)
    as (g & Hloop & Hg & Hat).
  { intros var Hin Hpos. pose proof (is_model_bounds model var Hmodel Hin). lia. }
  exists g. split; [assumption|].
  intros i j k Hi Hj Hk Hne.
  rewrite (Hat i j 0) by (lia || apply grid_at_initial; assumption). f_equal.
  pose proof (is_grid_entry grid i j k Hgrid Hk) as Hentry.
  destruct (decoded_cases model i j 0)
    as [[_ Hno] | (var & Hin & Hpos & Hcell & ->)].
  - exfalso. apply Hno. exists (cell_to_variable i j k).
    destruct (given_cell_literal grid model i j k 0
                Hgrid Hcells Hgivens Hi Hj Hk Hne) as [Hin _].
    split; [assumption|]. split.
    + pose proof (cell_to_variable_bounds i j k Hi Hj ltac:(lia)). lia.
    + rewrite variable_to_cell_encode by lia. reflexivity.
  - apply (given_cell_literal grid model i j k var
             Hgrid Hcells Hgivens Hi Hj Hk Hne); assumption.
Qed.

Lemma givens_preserved_witness :
  exists g,
    model_to_grid (model_of solved) = Ok g
    /\ forall i j k, 0 <= i < 9 -> 0 <= j < 9 ->
         grid_at example3 i j = Some k -> k <> 0 -> grid_at g i j = Some k.
Proof.
  apply (givens_preserved example3 (model_of solved)
           (create_cell_constraints ++ create_line_constraints
              ++ create_column_constraints ++ create_box_constraints
              ++ map unit_clause (givens example3))).
  - reflexivity.
  - vm_compute. reflexivity.
  - apply generate_problem_Ok, is_grid_shape9. reflexivity.
  - vm_compute. reflexivity.
Defined.

(** ** The reference grid and the outcomes of a solve *)

Section Outcomes.

Variable file_write : string -> string -> result unit.
Variable subprocess_run : list string -> result string.
Variable splitlines : string -> list string.
Variable int : string -> result Z.

Local Abbreviation exec := (exec_gophersat subprocess_run splitlines int).
Local Abbreviation solve :=
  (solve_sudoku file_write subprocess_run splitlines int).

(** The two givens 5 of the first row of [example] contradict the line
    constraint of that row for the digit 5. *)
Lemma example_conflict (a : assignment) (clauses : ClauseBase) :
  generate_problem example = Ok clauses -> eval_base a clauses = false.
Proof.
  intros Hgen.
  pose proof (generate_problem_Ok example
                (is_grid_shape9 example eq_refl)) as Hok.
  rewrite Hgen in Hok. apply Ok_inj in Hok. clear Hgen.
  destruct (eval_base a clauses) eqn:Hsat; [exfalso | reflexivity].
  assert (H1 : eval_clause a [5] = true).
  { apply (eval_base_In a clauses _ Hsat). rewrite Hok, !in_app_iff.
    do 4 right. apply in_map_iff. exists (0, 0, 5).
    split; [reflexivity|]. apply In_givens. repeat split; (lia || reflexivity). }
  assert (H2 : eval_clause a [23] = true).
  { apply (eval_base_In a clauses _ Hsat). rewrite Hok, !in_app_iff.
    do 4 right. apply in_map_iff. exists (0, 2, 5).
    split; [reflexivity|]. apply In_givens. repeat split; (lia || reflexivity). }
  assert (H3 : eval_clause a [- 5; - 23] = true).
  { apply (eval_base_In a clauses _ Hsat). rewrite Hok, !in_app_iff.
    right. left. unfold create_line_constraints.
    apply in_flat_map. exists 0. split; [apply In_range; lia|].
    apply in_flat_map. exists 5. split; [apply In_range; lia|].
    apply In_unique. right. exists 5, 23. split; [|reflexivity].
    vm_compute. tauto. }
  clear Hsat Hok. unfold eval_clause in H1, H2. simpl in H1, H2.
  rewrite orb_false_r, eval_positive in H1, H2 by lia.
  change (eval_clause a [Z.opp 5; Z.opp 23] = true) in H3.
  rewrite eval_pair_false in H3 by (lia || assumption). discriminate.
Qed.

(** C8, as the code has it: on a 9x9 grid whose file is written, when the
    call of the solver raises (it could not be launched, or failed) and
    when it reports no model, [solve_sudoku] returns the same value
    [(False, None)]; the two paths differ only by the last line printed.
    Below [solve_sudoku], [exec_gophersat] does tell them apart: it raises
    what the launch raised, and it returns [(False, [])] when the second
    line of the output is not [s SATISFIABLE].  A file that cannot be
    written is another matter: the exception leaves [solve_sudoku], with
    nothing written or printed. *)
Theorem solve_sudoku_failures (grid : Grid) (cmd filename : string) :
  is_grid grid = true ->
  exists clauses,
    generate_problem grid = Ok clauses
    /\ (file_write filename (clause_to_dimacs clauses 729) = Ok tt ->
        (forall e, exec filename cmd = Raise e ->
           solve grid cmd filename
           = ([WriteFile filename (clause_to_dimacs clauses 729);
               Print (nl ++ "Exécution de : " ++ cmd ++ " "
                         ++ filename)%string;
               Print ("Erreur lors de l'exécution : " ++ str_exn e)%string],
              Ok (false, None)))
        /\ (forall model, exec filename cmd = Ok (false, model) ->
              solve grid cmd filename
              = ([WriteFile filename (clause_to_dimacs clauses 729);
                  Print (nl ++ "Exécution de : " ++ cmd ++ " "
                            ++ filename)%string;
                  Print "Ce Sudoku n'a pas de solution."],
                 Ok (false, None))))
    /\ (forall e,
          file_write filename (clause_to_dimacs clauses 729) = Raise e ->
          solve grid cmd filename = ([], Raise e))
    /\ (forall e, Print ("Erreur lors de l'exécution : " ++ str_exn e)%string
                  <> Print "Ce Sudoku n'a pas de solution.")
    /\ (forall e, subprocess_run [cmd; filename] = Raise e ->
          exec filename cmd = Raise e)
    /\ (forall stdout line1,
          subprocess_run [cmd; filename] = Ok stdout ->
          getitem (splitlines stdout) 1 = Ok line1 ->
          line1 <> "s SATISFIABLE" ->
          exec filename cmd = Ok (false, [])).
Proof.
  intros Hgrid.
  pose proof (generate_problem_Ok grid (is_grid_shape9 grid Hgrid)) as Hok.
  eexists. split; [exact Hok|]. split; [|split; [|split; [|split]]].
  - intros Hwrite. split.
    + intros e Hexec. unfold solve_sudoku, write_dimacs_file.
      rewrite Hok, Hwrite, Hexec. reflexivity.
    + intros model Hexec. unfold solve_sudoku, write_dimacs_file.
      rewrite Hok, Hwrite, Hexec. reflexivity.
  - intros e Hwrite. unfold solve_sudoku, write_dimacs_file.
    rewrite Hok, Hwrite. reflexivity.
  - intros e Heq. inversion Heq.
  - intros e Hrun. unfold exec_gophersat. rewrite Hrun. reflexivity.
  - intros stdout line1 Hrun Hline Hne.
    unfold exec_gophersat. rewrite Hrun. simpl. rewrite Hline. simpl.
    apply String.eqb_neq in Hne. rewrite Hne. reflexivity.
Qed.

End Outcomes.

Lemma solve_sudoku_failures_witness :
  exists clauses,
    generate_problem example = Ok clauses
    /\ solve_sudoku write_ok run_missing splitlines_stub int_stub example
                    "gophersat" "sudoku.cnf"
       = ([WriteFile "sudoku.cnf" (clause_to_dimacs clauses 729);
           Print (nl ++ "Exécution de : " ++ "gophersat" ++ " "
                     ++ "sudoku.cnf")%string;
           Print ("Erreur lors de l'exécution : "
                    ++ "[Errno 2] No such file or directory: 'gophersat'")%string],
          Ok (false, None))
    /\ solve_sudoku write_ok run_unsat splitlines_stub int_stub example
                    "gophersat" "sudoku.cnf"
       = ([WriteFile "sudoku.cnf" (clause_to_dimacs clauses 729);
           Print (nl ++ "Exécution de : " ++ "gophersat" ++ " "
                     ++ "sudoku.cnf")%string;
           Print "Ce Sudoku n'a pas de solution."],
          Ok (false, None))
    /\ solve_sudoku write_denied run_unsat splitlines_stub int_stub example
                    "gophersat" "sudoku.cnf"
       = ([], Raise (Exception "[Errno 13] Permission denied")).
Proof.
  destruct (solve_sudoku_failures write_ok run_missing splitlines_stub
              int_stub example "gophersat" "sudoku.cnf" eq_refl)
    as (clauses & Hgen & Hwritten & _).
  destruct (solve_sudoku_failures write_ok run_unsat splitlines_stub
              int_stub example "gophersat" "sudoku.cnf" eq_refl)
    as (clauses' & Hgen' & Hwritten' & _).
  destruct (solve_sudoku_failures write_denied run_unsat splitlines_stub
              int_stub example "gophersat" "sudoku.cnf" eq_refl)
    as (clauses'' & Hgen'' & _ & Hdenied & _).
  rewrite Hgen in Hgen', Hgen''.
  apply Ok_inj in Hgen'. apply Ok_inj in Hgen''. subst clauses' clauses''.
  exists clauses. split; [exact Hgen|]. split; [|split].
  - apply (proj1 (Hwritten eq_refl) _ eq_refl).
  - apply (proj2 (Hwritten' eq_refl) _ eq_refl).
  - apply (Hdenied _ eq_refl).
Defined.

(** C8 as stated fails: with a solver that cannot be launched,
    [exec_gophersat] raises, with one that reports no model it returns
    [(False, [])], and [solve_sudoku] returns the same value in both
    cases, so its results are not distinct. *)
Lemma solve_sudoku_failures_counterexample :
  exec_gophersat run_missing splitlines_stub int_stub "sudoku.cnf" "gophersat"
  = Raise (Exception "[Errno 2] No such file or directory: 'gophersat'")
  /\ exec_gophersat run_unsat splitlines_stub int_stub "sudoku.cnf" "gophersat"
     = Ok (false, [])
  /\ ~ (snd (solve_sudoku write_ok run_missing splitlines_stub int_stub
                          example "gophersat" "sudoku.cnf")
        <> snd (solve_sudoku write_ok run_unsat splitlines_stub int_stub
                             example "gophersat" "sudoku.cnf")).
Proof.
  split; [reflexivity|]. split; [reflexivity|].
  intros Hne. apply Hne. vm_compute. reflexivity.
Qed.

(** ** TP2: the counts of the colouring file *)

Section Colouring.

Import TP2.

Lemma count_LF_append (s1 s2 : string) :
  count_LF (s1 ++ s2)%string = (count_LF s1 + count_LF s2)%nat.
Proof.
  induction s1 as [|ch s1 IH]; [reflexivity|].
  rewrite append_String. simpl. rewrite IH. lia.
Qed.

Lemma count_LF_uint (d : Decimal.uint) :
  count_LF (NilEmpty.string_of_uint d) = 0%nat.
Proof. induction d; simpl; auto. Qed.

Lemma count_LF_str (n : Z) : count_LF (str n) = 0%nat.
Proof.
  unfold str, NilZero.string_of_int, NilZero.string_of_uint.
  destruct (Z.to_int n) as [d|d]; destruct d;
    try reflexivity; apply count_LF_uint.
Qed.

Lemma count_LF_join (sep : string) (l : list string) :
  count_LF sep = 0%nat -> Forall (fun s => count_LF s = 0%nat) l ->
  count_LF (join sep l) = 0%nat.
Proof.
  intros Hsep Hl. unfold join.
  induction Hl as [|s l Hs Hl IH]; [reflexivity|].
  destruct l as [|s' l]; [exact Hs|].
  change (String.concat sep (s :: s' :: l))
    with (s ++ sep ++ String.concat sep (s' :: l))%string.
  rewrite !count_LF_append, Hs, Hsep, IH. reflexivity.
Qed.

(** A clause line holds one line feed, its last character. *)
Lemma count_LF_line (clause : list Z) :
  count_LF (join " " (map str clause) ++ " 0" ++ nl)%string = 1%nat.
Proof.
  rewrite count_LF_append, count_LF_join; [reflexivity | reflexivity |].
  apply List.Forall_forall. intros s Hs. apply in_map_iff in Hs.
  destruct Hs as (n & <- & _). apply count_LF_str.
Qed.

Lemma count_LF_file (lines : list string) :
  Forall (fun line => count_LF line = 1%nat) lines ->
  count_LF (file_contents lines) = length lines.
Proof.
  unfold file_contents. induction 1 as [|s l Hs Hl IH]; [reflexivity|].
  destruct l as [|s' l]; [exact Hs|].
  change (String.concat EmptyString (s :: s' :: l))
    with (s ++ EmptyString ++ String.concat EmptyString (s' :: l))%string.
  rewrite !count_LF_append, Hs, IH. reflexivity.
Qed.

Lemma file_contents_cons (s : string) (lines : list string) :
  file_contents (s :: lines) = (s ++ file_contents lines)%string.
Proof.
  unfold file_contents. destruct lines as [|s' l]; [|reflexivity].
  simpl. induction s as [|ch s IH]; [reflexivity|].
  rewrite append_String. now f_equal.
Qed.

Lemma clauses_lines (graph : Graph) (couleurs_int : list Z) :
  Forall (fun line => count_LF line = 1%nat) (clauses graph couleurs_int).
Proof.
  unfold clauses. rewrite !Forall_app. repeat split.
  - apply List.Forall_forall. intros s Hs. apply in_map_iff in Hs.
    destruct Hs as (j & <- & _). apply count_LF_line.
  - apply List.Forall_forall. intros s Hs. apply in_flat_map in Hs.
    destruct Hs as (j & _ & Hs). apply in_map_iff in Hs.
    destruct Hs as (pair & <- & _). apply count_LF_line.
  - apply List.Forall_forall. intros s Hs. apply in_flat_map in Hs.
    destruct Hs as ([u v] & _ & Hs). apply in_map_iff in Hs.
    destruct Hs as (i & <- & _). apply count_LF_line.
Qed.

Lemma length_flat_map_const {A B : Type} (f : A -> list B) (l : list A)
      (n : nat) :
  (forall x, length (f x) = n) ->
  length (flat_map f l) = (length l * n)%nat.
Proof.
  intros Hf. induction l as [|x l IH]; simpl; [reflexivity|].
  rewrite length_app, Hf, IH. lia.
Qed.

Lemma length_clauses (graph : Graph) :
  length (clauses graph [1; 2; 3])
  = (length (nodes graph) + length (nodes graph) * 3
     + length (edges graph) * 3)%nat.
Proof.
  unfold clauses. rewrite !length_app, length_map.
  rewrite (length_flat_map_const _ (nodes graph) 3) by reflexivity.
  rewrite (length_flat_map_const _ (edges graph) 3)
    by (intros [u v]; reflexivity).
  lia.
Qed.

(** C6: for every graph, the file begins with the header that reports
    [|V| * 3] variables and [|V| + |V| * C(3,2) + |E| * 3] clauses, where
    [C(3,2) = 3] is the number of pairs of colours; the lines written
    after the header are as many as the header reports, and each of them
    is one line of the file. *)
Theorem generate_dimacs_cnf_counts (graph : Graph) (num_colors : Z) :
  exists lines,
    generate_dimacs_cnf graph num_colors = Ok (header graph :: lines)
    /\ header graph
       = ("p cnf " ++ str (len (nodes graph) * 3) ++ " "
            ++ str (len (nodes graph)
                    + len (nodes graph) * len (combinations2 [1; 2; 3])
                    + len (edges graph) * 3)
            ++ nl)%string
    /\ len (combinations2 [1; 2; 3]) = 3
    /\ len lines
       = len (nodes graph) + len (nodes graph) * 3 + len (edges graph) * 3
    /\ Forall (fun line => count_LF line = 1%nat) lines
    /\ file_contents (header graph :: lines)
       = (header graph ++ file_contents lines)%string
    /\ count_LF (header graph) = 1%nat
    /\ count_LF (file_contents lines) = length lines.
Proof.
  exists (clauses graph [1; 2; 3]).
  split; [reflexivity|]. split.
  { unfold header, variables, c. change (len couleurs) with 3.
    change (len (combinations2 [1; 2; 3])) with 3.
    replace (len (nodes graph) * 3 + len (edges graph) * 3
             + len (nodes graph))
      with (len (nodes graph) + len (nodes graph) * 3
            + len (edges graph) * 3) by lia.
    reflexivity. }
  split; [reflexivity|]. split.
  { unfold len. rewrite length_clauses. lia. }
  split; [apply clauses_lines|]. split; [apply file_contents_cons|]. split.
  - unfold header. rewrite !count_LF_append, !count_LF_str. reflexivity.
  - apply count_LF_file, clauses_lines.
Qed.

End Colouring.

(** * Further properties of the two programs *)

(** ** Loops, grids and groups: shared facts *)

Section Shared.

Lemma for_app {A S : Type} (l1 l2 : list A)
      (body : A -> S -> result S) (s : S) :
  for_ (l1 ++ l2) body s = bind (for_ l1 body s) (for_ l2 body).
Proof.
  revert s. induction l1 as [|x l1 IH]; intros s; simpl; [reflexivity|].
  destruct (body x s) as [s'|e]; simpl; [apply IH | reflexivity].
Qed.

(** Two 9x9 grids with the same entries are the same list of rows. *)
Lemma grid_ext (g1 g2 : Grid) :
  shape9 g1 -> shape9 g2 ->
  (forall i j, 0 <= i < 9 -> 0 <= j < 9 -> grid_at g1 i j = grid_at g2 i j) ->
  g1 = g2.
Proof.
  intros [Hl1 Hr1] [Hl2 Hr2] Hat. apply list_eq. intros n.
  destruct (Nat.lt_ge_cases n 9) as [Hn|Hn].
  - destruct (lookup_lt_is_Some_2 g1 n) as [r1 H1]; [lia|].
    destruct (lookup_lt_is_Some_2 g2 n) as [r2 H2]; [lia|].
    rewrite H1, H2. f_equal.
    pose proof (Forall_lookup_1 _ _ _ _ Hr1 H1) as Hlen1.
    pose proof (Forall_lookup_1 _ _ _ _ Hr2 H2) as Hlen2.
    simpl in Hlen1, Hlen2. apply list_eq. intros m.
    destruct (Nat.lt_ge_cases m 9) as [Hm|Hm].
    + specialize (Hat (Z.of_nat n) (Z.of_nat m) ltac:(lia) ltac:(lia)).
      unfold grid_at in Hat. rewrite !Nat2Z.id, H1, H2 in Hat. exact Hat.
    + rewrite !lookup_ge_None_2 by lia. reflexivity.
  - rewrite !lookup_ge_None_2 by lia. reflexivity.
Qed.

Lemma is_grid_at (grid : Grid) (i j : Z) :
  is_grid grid = true -> 0 <= i < 9 -> 0 <= j < 9 ->
  exists k, grid_at grid i j = Some k /\ 0 <= k <= 9.
Proof.
  intros Hgrid Hi Hj.
  destruct (grid_at_is_Some grid i j (is_grid_shape9 grid Hgrid) Hi Hj)
    as [k Hk].
  exists k. split; [assumption|]. exact (is_grid_entry grid i j k Hgrid Hk).
Qed.

Lemma concat_unit_clauses (l : list (Z * Z * Z)) :
  concat (map unit_clause l)
  = map (fun '(i, j, k) => cell_to_variable i j k) l.
Proof.
  induction l as [|[[i j] k] l IH]; simpl; [reflexivity|]. now rewrite IH.
Qed.

End Shared.

(** ** The numbering and the exactly-one group *)

(** X1: on the atoms of the domain the numbering never collides: two atoms
    with columns in [[0, 9)] and digits in [[1, 9]] that get the same
    variable are the same atom. *)
Theorem cell_to_variable_injective (i j val i' j' val' : Z) :
  0 <= j < 9 -> 1 <= val <= 9 -> 0 <= j' < 9 -> 1 <= val' <= 9 ->
  cell_to_variable i j val = cell_to_variable i' j' val' ->
  (i, j, val) = (i', j', val').
Proof.
  intros Hj Hval Hj' Hval' Heq.
  destruct (cell_to_variable_inj i j val i' j' val' Hj Hval Hj' Hval' Heq)
    as (-> & -> & ->).
  reflexivity.
Qed.

Lemma cell_to_variable_injective_witness :
  (2, 3, 4) = (1 + 1, 2 + 1, 3 + 1).
Proof.
  apply (cell_to_variable_injective 2 3 4 (1 + 1) (2 + 1) (3 + 1));
    (lia || reflexivity).
Defined.

(** X2: the base of a group of [n] variables is the clause of the variables
    themselves followed by [n * (n - 1) / 2] clauses, each of which negates
    two variables of the group. *)
Theorem unique_size (variables : list Z) :
  exists pairs,
    unique variables = variables :: pairs
    /\ 2 * len pairs = len variables * (len variables - 1)
    /\ forall clause, In clause pairs ->
         exists x y, In x variables /\ In y variables
                     /\ clause = [- x; - y].
Proof.
  eexists. split; [reflexivity|]. split.
  - unfold len. rewrite length_map.
    pose proof (length_combinations2 variables). nia.
  - intros clause Hin. apply in_map_iff in Hin.
    destruct Hin as ([x y] & <- & Hin). exists x, y.
    destruct (In_combinations2_In _ _ _ Hin). auto.
Qed.

(** ** The decoder on its own *)

(** X3: the decoder skips every literal that is not positive: decoding a
    model and decoding its positive literals alone give the same grid, or
    the same exception. *)
Theorem model_to_grid_positive_only (model : Model) :
  model_to_grid model
  = model_to_grid (List.filter (fun var => var >? 0) model).
Proof.
  unfold model_to_grid.
  generalize (map (fun _ : Z => map (fun _ : Z => 0) (range 0 9)) (range 0 9)).
  induction model as [|var model IH]; intros g; [reflexivity|].
  simpl List.filter. destruct (Z.gtb_spec var 0) as [Hpos|Hneg].
  - simpl for_. destruct (model_to_grid_body var g) as [g'|e];
      simpl; [apply IH | reflexivity].
  - simpl for_. rewrite model_to_grid_body_nonpositive by lia.
    simpl. apply IH.
Qed.

(** X4: the last positive literal wins.  After a model whose positive
    literals are in [[1, 729]], one more literal [var] of [[1, 729]] puts
    its digit in its cell, whatever the cell held, and leaves every other
    cell as it was: the decoder does not check that a cell is written
    once. *)
Theorem model_to_grid_last_wins (model : Model) (var : Z) :
  (forall v, In v model -> 0 < v -> v <= 729) ->
  1 <= var <= 729 ->
  exists g g',
    model_to_grid model = Ok g
    /\ model_to_grid (model ++ [var]) = Ok g'
    /\ grid_at g' (fst (fst (variable_to_cell var)))
                  (snd (fst (variable_to_cell var)))
       = Some (snd (variable_to_cell var) + 1)
    /\ forall i j, 0 <= i -> 0 <= j ->
         (i, j) <> fst (variable_to_cell var) ->
         grid_at g' i j = grid_at g i j.
Proof.
  intros Hmodel Hvar. unfold model_to_grid.
  destruct (model_to_grid_loop model _ shape9_initial Hmodel)
    as (g & Hloop & Hg & _).
  destruct (model_to_grid_body_Ok var g Hg ltac:(lia))
    as (g' & Hbody & _ & Hat).
  exists g, g'. split; [assumption|]. split.
  { rewrite for_app, Hloop. simpl. rewrite Hbody. reflexivity. }
  pose proof (variable_to_cell_bounds var Hvar) as Hb.
  destruct (variable_to_cell var) as [[i0 j0] val]. simpl fst in *.
  simpl snd in *. split.
  - rewrite Hat by lia. rewrite bool_decide_eq_true_2 by reflexivity.
    reflexivity.
  - intros i j Hi Hj Hne. rewrite Hat by assumption.
    rewrite bool_decide_eq_false_2 by congruence. reflexivity.
Qed.

Lemma model_to_grid_last_wins_witness :
  exists g g',
    model_to_grid [5] = Ok g
    /\ model_to_grid ([5] ++ [7]) = Ok g'
    /\ grid_at g' (fst (fst (variable_to_cell 7)))
                  (snd (fst (variable_to_cell 7)))
       = Some (snd (variable_to_cell 7) + 1)
    /\ forall i j, 0 <= i -> 0 <= j ->
         (i, j) <> fst (variable_to_cell 7) ->
         grid_at g' i j = grid_at g i j.
Proof. apply (model_to_grid_last_wins [5] 7); simpl; lia. Defined.

(** X5: encoding the givens and decoding them is the identity.  For every
    9x9 grid with entries in [[0, 9]], the literals of the unit clauses of
    [create_value_constraints] decode to the grid itself. *)
Theorem givens_roundtrip (grid : Grid) :
  is_grid grid = true ->
  exists clauses,
    create_value_constraints grid = Ok clauses
    /\ model_to_grid (concat clauses) = Ok grid.
Proof.
  intros Hgrid. pose proof (is_grid_shape9 grid Hgrid) as Hshape.
  eexists. split; [now apply create_value_constraints_givens|].
  rewrite concat_unit_clauses.
  set (model := map (fun '(i, j, k) => cell_to_variable i j k) (givens grid)).
  assert (Hin : forall v, In v model ->
            exists i j k, v = cell_to_variable i j k
                          /\ (0 <= i < 9 /\ 0 <= j < 9)
                          /\ grid_at grid i j = Some k /\ 1 <= k <= 9).
  { intros v Hv. apply in_map_iff in Hv.
    destruct Hv as ([[i j] k] & <- & Hg). apply In_givens in Hg.
    destruct Hg as (Hij & Hk & Hne).
    pose proof (is_grid_entry grid i j k Hgrid Hk).
    exists i, j, k. repeat split; (tauto || lia). }
  unfold model_to_grid.
  destruct (model_to_grid_loop model _ shape9_initial)
    as (g & Hloop & Hg & Hat).
  { intros v Hv _. destruct (Hin v Hv) as (i & j & k & -> & [Hi Hj] & _ & Hk).
    pose proof (cell_to_variable_bounds i j k Hi Hj Hk). lia. }
  rewrite Hloop. f_equal. apply grid_ext; try assumption.
  intros i j Hi Hj.
  rewrite (Hat i j 0) by (lia || apply grid_at_initial; assumption).
  destruct (is_grid_at grid i j Hgrid Hi Hj) as (x & Hx & Hx09).
  rewrite Hx. f_equal.
  destruct (decoded_cases model i j 0)
    as [[-> Hno] | (v & Hv & Hpos & Hcell & ->)].
  - destruct (Z.eq_dec x 0) as [->|Hne]; [reflexivity | exfalso].
    apply Hno. exists (cell_to_variable i j x). split; [|split].
    + apply in_map_iff. exists (i, j, x). split; [reflexivity|].
      apply In_givens. auto.
    + pose proof (cell_to_variable_bounds i j x Hi Hj ltac:(lia)). lia.
    + rewrite variable_to_cell_encode by lia. reflexivity.
  - destruct (Hin v Hv) as (i' & j' & k & -> & [Hi' Hj'] & Hk & Hk19).
    rewrite variable_to_cell_encode in Hcell |- * by lia.
    simpl in Hcell |- *. inversion Hcell; subst i' j'.
    rewrite Hx in Hk. inversion Hk. lia.
Qed.

Lemma givens_roundtrip_witness :
  exists clauses,
    create_value_constraints example = Ok clauses
    /\ model_to_grid (concat clauses) = Ok example.
Proof. apply (givens_roundtrip example). reflexivity. Defined.

(** ** The four families of groups *)

Section Families.

Lemma In_line_constraints (i k : Z) (clause : Clause) :
  0 <= i < 9 -> 1 <= k <= 9 ->
  In clause (unique (map (fun j => cell_to_variable i j k) (range 0 9))) ->
  In clause create_line_constraints.
Proof.
  intros Hi Hk Hin. unfold create_line_constraints.
  apply in_flat_map. exists i. split; [apply In_range; lia|].
  apply in_flat_map. exists k. split; [apply In_range; lia | exact Hin].
Qed.

Lemma In_column_constraints (j k : Z) (clause : Clause) :
  0 <= j < 9 -> 1 <= k <= 9 ->
  In clause (unique (map (fun i => cell_to_variable i j k) (range 0 9))) ->
  In clause create_column_constraints.
Proof.
  intros Hj Hk Hin. unfold create_column_constraints.
  apply in_flat_map. exists j. split; [apply In_range; lia|].
  apply in_flat_map. exists k. split; [apply In_range; lia | exact Hin].
Qed.

Lemma In_box_constraints (box_row box_columns k : Z) (clause : Clause) :
  0 <= box_row < 3 -> 0 <= box_columns < 3 -> 1 <= k <= 9 ->
  In clause (unique (box_vars box_row box_columns k)) ->
  In clause create_box_constraints.
Proof.
  intros Hr Hc Hk Hin. unfold create_box_constraints.
  apply in_flat_map. exists box_row. split; [apply In_range; lia|].
  apply in_flat_map. exists box_columns. split; [apply In_range; lia|].
  apply in_flat_map. exists k. split; [apply In_range; lia | exact Hin].
Qed.

Lemma In_box_vars (box_row box_columns k x : Z) :
  In x (box_vars box_row box_columns k)
  <-> exists i j, (0 <= i < 3 /\ 0 <= j < 3)
                  /\ x = cell_to_variable (box_row * 3 + i)
                                          (box_columns * 3 + j) k.
Proof.
  unfold box_vars. rewrite in_flat_map. split.
  - intros (i & Hi & Hin). apply in_map_iff in Hin.
    destruct Hin as (j & <- & Hj). apply In_range in Hi, Hj.
    exists i, j. auto.
  - intros (i & j & [Hi Hj] & ->). exists i.
    split; [apply In_range; lia|]. apply in_map_iff. exists j.
    split; [reflexivity | apply In_range; lia].
Qed.

Lemma NoDup_map_inj {A B : Type} (f : A -> B) (l : list A) :
  (forall x y, In x l -> In y l -> f x = f y -> x = y) ->
  List.NoDup l -> List.NoDup (map f l).
Proof.
  intros Hinj Hnd. induction Hnd as [|x l Hx Hnd IH]; simpl.
  - apply List.NoDup_nil.
  - apply List.NoDup_cons.
    + intros Hin. apply in_map_iff in Hin. destruct Hin as (y & Heq & Hy).
      apply Hx. rewrite <- (Hinj y x); simpl; auto.
    + apply IH. intros; apply Hinj; simpl; auto.
Qed.

Lemma NoDup_range (lo hi : Z) : List.NoDup (range lo hi).
Proof.
  unfold range. apply NoDup_map_inj; [intros; lia | apply List.seq_NoDup].
Qed.

Lemma NoDup_box_vars (box_row box_columns k : Z) :
  List.NoDup (box_vars box_row box_columns k).
Proof.
  unfold box_vars, cell_to_variable. cbn [range Z.sub Z.to_nat Pos.to_nat
    Pos.iter_op Init.Nat.add seq map flat_map app Z.of_nat Z.add
    Pos.of_succ_nat Pos.succ Z.opp Z.pos_sub Z.succ_double Z.pred_double
    Z.double Pos.pred_double].
  repeat (apply List.NoDup_cons; [simpl; lia|]). apply List.NoDup_nil.
Qed.

Variable a : assignment.

(** A group whose clauses hold has a true variable. *)
Lemma unique_some_true (variables : list Z) :
  (forall x, In x variables -> 0 < x) ->
  eval_base a (unique variables) = true ->
  exists x, In x variables /\ a x = true.
Proof.
  intros Hpos Hsat. apply eval_at_least_one; [assumption|].
  apply (eval_base_In a (unique variables)); [assumption|].
  apply In_unique. left. reflexivity.
Qed.

(** A group with exactly one true variable has all its clauses true. *)
Lemma unique_satisfied (variables : list Z) (x : Z) :
  List.NoDup variables ->
  (forall y, In y variables -> 0 < y) ->
  In x variables -> a x = true ->
  (forall y, In y variables -> a y = true -> y = x) ->
  eval_base a (unique variables) = true.
Proof.
  intros Hnd Hpos Hx Hax Huniq. apply forallb_forall. intros clause Hin.
  apply In_unique in Hin. destruct Hin as [-> | (u & v & Huv & ->)].
  - apply eval_at_least_one; eauto.
  - destruct (In_combinations2_In _ _ _ Huv) as [Hu Hv].
    pose proof (In_combinations2_neq _ _ _ Hnd Huv) as Hne.
    unfold eval_clause. simpl. rewrite !eval_negative by auto.
    destruct (a u) eqn:Hau, (a v) eqn:Hav; try reflexivity.
    exfalso. apply Hne. rewrite (Huniq u Hu Hau), (Huniq v Hv Hav).
    reflexivity.
Qed.

Lemma eval_base_flat_map {A : Type} (f : A -> ClauseBase) (l : list A) :
  (forall x, In x l -> eval_base a (f x) = true) ->
  eval_base a (flat_map f l) = true.
Proof.
  intros Hall. apply forallb_forall. intros clause Hin.
  apply in_flat_map in Hin. destruct Hin as (x & Hx & Hin).
  apply (eval_base_In a (f x)); auto.
Qed.

Lemma eval_base_app (c1 c2 : ClauseBase) :
  eval_base a (c1 ++ c2) = eval_base a c1 && eval_base a c2.
Proof. apply forallb_app. Qed.

End Families.

(** ** What a model of the clause base decodes to *)

Section Meaning.

(** With the cell constraints true, the decoder returns a grid whose cell
    [(i, j)] holds the digit [k] exactly when the model lists the variable
    of [(i, j, k)]. *)
Lemma decode_cells (model : Model) :
  (forall v, In v model -> 0 < v -> v <= 729) ->
  (forall clause, In clause create_cell_constraints ->
                  eval_clause (model_assignment model) clause = true) ->
  exists g,
    model_to_grid model = Ok g /\ shape9 g
    /\ forall i j, 0 <= i < 9 -> 0 <= j < 9 ->
         exists k, grid_at g i j = Some k /\ 1 <= k <= 9
                   /\ In (cell_to_variable i j k) model
                   /\ forall k', 1 <= k' <= 9 ->
                        In (cell_to_variable i j k') model -> k' = k.
Proof.
  intros Hmodel Hcells. unfold model_to_grid.
  destruct (model_to_grid_loop model _ shape9_initial Hmodel)
    as (g & Hloop & Hg & Hat).
  exists g. split; [assumption|]. split; [assumption|].
  intros i j Hi Hj.
  set (a := model_assignment model) in *.
  set (cell_vars := map (fun k => cell_to_variable i j k) (range 1 10)).
  assert (Hpos : forall x, In x cell_vars -> 0 < x).
  { intros x Hx. apply in_map_iff in Hx. destruct Hx as (d & <- & Hd).
    apply In_range in Hd.
    pose proof (cell_to_variable_bounds i j d Hi Hj ltac:(lia)). lia. }
  assert (Hgroup : eval_base a (unique cell_vars) = true).
  { apply forallb_forall. intros clause Hclause.
    apply Hcells. apply (In_cell_constraints i j); assumption. }
  assert (Hmost : forall k1 k2, 1 <= k1 <= 9 -> 1 <= k2 <= 9 ->
            In (cell_to_variable i j k1) model ->
            In (cell_to_variable i j k2) model -> k1 = k2).
  { intros k1 k2 H1 H2 Hin1 Hin2.
    assert (Heq : cell_to_variable i j k1 = cell_to_variable i j k2).
    { apply (unique_at_most_one a cell_vars); try assumption.
      - apply in_map_iff. exists k1. split; [reflexivity | apply In_range; lia].
      - apply in_map_iff. exists k2. split; [reflexivity | apply In_range; lia].
      - apply model_assignment_In; assumption.
      - apply model_assignment_In; assumption. }
    apply cell_to_variable_inj in Heq; lia. }
  destruct (unique_some_true a cell_vars Hpos Hgroup) as (x & Hx & Hax).
  apply in_map_iff in Hx. destruct Hx as (k0 & <- & Hk0).
  apply In_range in Hk0. apply model_assignment_In in Hax.
  rewrite (Hat i j 0) by (lia || apply grid_at_initial; assumption).
  destruct (decoded_cases model i j 0)
    as [[_ Hno] | (v & Hv & Hvpos & Hcell & ->)].
  - exfalso. apply Hno. exists (cell_to_variable i j k0).
    split; [assumption|]. split.
    + pose proof (cell_to_variable_bounds i j k0 Hi Hj ltac:(lia)). lia.
    + rewrite variable_to_cell_encode by lia. reflexivity.
  - pose proof (cell_to_variable_decode v) as Hdec.
    assert (Hval : 0 <= snd (variable_to_cell v) < 9).
    { unfold variable_to_cell. simpl. Z.div_mod_to_equations. lia. }
    destruct (variable_to_cell v) as [[i' j'] val].
    simpl in Hcell, Hval |- *. injection Hcell as -> ->.
    exists (val + 1). split; [reflexivity|]. split; [lia|].
    rewrite Hdec. split; [assumption|].
    intros k' Hk' Hin'. apply (Hmost k' (val + 1)); try lia; try assumption.
    rewrite Hdec. assumption.
Qed.

Lemma decode_cells_iff (model : Model) (g : Grid) (i j k : Z) :
  (forall i j, 0 <= i < 9 -> 0 <= j < 9 ->
     exists k, grid_at g i j = Some k /\ 1 <= k <= 9
               /\ In (cell_to_variable i j k) model
               /\ forall k', 1 <= k' <= 9 ->
                    In (cell_to_variable i j k') model -> k' = k) ->
  0 <= i < 9 -> 0 <= j < 9 -> 1 <= k <= 9 ->
  grid_at g i j = Some k <-> In (cell_to_variable i j k) model.
Proof.
  intros Hcells Hi Hj Hk.
  destruct (Hcells i j Hi Hj) as (k0 & Hat & Hk0 & Hin & Huniq). split.
  - intros Hat'. rewrite Hat in Hat'. injection Hat' as <-. assumption.
  - intros Hin'. rewrite (Huniq k Hk Hin'). assumption.
Qed.

(** The rules of Sudoku, read off a model of the four families. *)
Lemma decoded_valid (model : Model) (g : Grid) :
  let a := model_assignment model in
  (forall i j, 0 <= i < 9 -> 0 <= j < 9 ->
     exists k, grid_at g i j = Some k /\ 1 <= k <= 9
               /\ In (cell_to_variable i j k) model
               /\ forall k', 1 <= k' <= 9 ->
                    In (cell_to_variable i j k') model -> k' = k) ->
  (forall clause, In clause create_line_constraints ->
                  eval_clause a clause = true) ->
  (forall clause, In clause create_column_constraints ->
                  eval_clause a clause = true) ->
  (forall clause, In clause create_box_constraints ->
                  eval_clause a clause = true) ->
  valid_solution g.
Proof.
  intros a Hcells Hlines Hcolumns Hboxes.
  pose proof (fun i j k => decode_cells_iff model g i j k Hcells) as Hiff.
  split; [|split; [|split]].
  - intros i j Hi Hj. destruct (Hcells i j Hi Hj) as (k & Hat & Hk & _).
    exists k. auto.
  - intros i k Hi Hk.
    set (vars := map (fun j => cell_to_variable i j k) (range 0 9)).
    assert (Hpos : forall x, In x vars -> 0 < x).
    { intros x Hx. apply in_map_iff in Hx. destruct Hx as (j & <- & Hj).
      apply In_range in Hj.
      pose proof (cell_to_variable_bounds i j k Hi Hj Hk). lia. }
    assert (Hgroup : eval_base a (unique vars) = true).
    { apply forallb_forall. intros clause Hclause.
      apply Hlines. apply (In_line_constraints i k); assumption. }
    destruct (unique_some_true a vars Hpos Hgroup) as (x & Hx & Hax).
    apply in_map_iff in Hx. destruct Hx as (j & <- & Hj).
    apply In_range in Hj. exists j. split; [assumption|]. split.
    + apply Hiff; try assumption. apply model_assignment_In. exact Hax.
    + intros j' Hj' Hat'. apply Hiff in Hat'; try assumption.
      assert (Heq : cell_to_variable i j' k = cell_to_variable i j k).
      { apply (unique_at_most_one a vars); try assumption.
        - apply in_map_iff. exists j'.
          split; [reflexivity | apply In_range; lia].
        - apply in_map_iff. exists j.
          split; [reflexivity | apply In_range; lia].
        - apply model_assignment_In. exact Hat'. }
      apply cell_to_variable_inj in Heq; lia.
  - intros j k Hj Hk.
    set (vars := map (fun i => cell_to_variable i j k) (range 0 9)).
    assert (Hpos : forall x, In x vars -> 0 < x).
    { intros x Hx. apply in_map_iff in Hx. destruct Hx as (i & <- & Hi).
      apply In_range in Hi.
      pose proof (cell_to_variable_bounds i j k Hi Hj Hk). lia. }
    assert (Hgroup : eval_base a (unique vars) = true).
    { apply forallb_forall. intros clause Hclause.
      apply Hcolumns. apply (In_column_constraints j k); assumption. }
    destruct (unique_some_true a vars Hpos Hgroup) as (x & Hx & Hax).
    apply in_map_iff in Hx. destruct Hx as (i & <- & Hi).
    apply In_range in Hi. exists i. split; [assumption|]. split.
    + apply Hiff; try assumption. apply model_assignment_In. exact Hax.
    + intros i' Hi' Hat'. apply Hiff in Hat'; try assumption.
      assert (Heq : cell_to_variable i' j k = cell_to_variable i j k).
      { apply (unique_at_most_one a vars); try assumption.
        - apply in_map_iff. exists i'.
          split; [reflexivity | apply In_range; lia].
        - apply in_map_iff. exists i.
          split; [reflexivity | apply In_range; lia].
        - apply model_assignment_In. exact Hat'. }
      apply cell_to_variable_inj in Heq; lia.
  - intros br bc k Hbr Hbc Hk.
    assert (Hpos : forall x, In x (box_vars br bc k) -> 0 < x).
    { intros x Hx. apply In_box_vars in Hx.
      destruct Hx as (i & j & [Hi Hj] & ->).
      pose proof (cell_to_variable_bounds (br * 3 + i) (bc * 3 + j) k
                    ltac:(lia) ltac:(lia) Hk). lia. }
    assert (Hgroup : eval_base a (unique (box_vars br bc k)) = true).
    { apply forallb_forall. intros clause Hclause.
      apply Hboxes. apply (In_box_constraints br bc k); assumption. }
    destruct (unique_some_true a _ Hpos Hgroup) as (x & Hx & Hax).
    apply In_box_vars in Hx. destruct Hx as (i & j & [Hi Hj] & ->).
    exists i, j. split; [auto|]. split.
    + apply Hiff; try lia. apply model_assignment_In. exact Hax.
    + intros i' j' Hi' Hj' Hat'. apply Hiff in Hat'; try lia.
      assert (Heq : cell_to_variable (br * 3 + i') (bc * 3 + j') k
                    = cell_to_variable (br * 3 + i) (bc * 3 + j) k).
      { apply (unique_at_most_one a (box_vars br bc k)); try assumption.
        - apply In_box_vars. exists i', j'. auto.
        - apply In_box_vars. exists i, j. auto.
        - apply model_assignment_In. exact Hat'. }
      apply cell_to_variable_inj in Heq; lia.
Qed.

(** The pieces of a model of the whole clause base. *)
Lemma eval_base_families (a : assignment) (grid : Grid) (clauses : ClauseBase) :
  is_grid grid = true ->
  generate_problem grid = Ok clauses ->
  eval_base a clauses = true ->
  (forall clause, In clause create_cell_constraints ->
                  eval_clause a clause = true)
  /\ (forall clause, In clause create_line_constraints ->
                     eval_clause a clause = true)
  /\ (forall clause, In clause create_column_constraints ->
                     eval_clause a clause = true)
  /\ (forall clause, In clause create_box_constraints ->
                     eval_clause a clause = true)
  /\ (forall clause, In clause (map unit_clause (givens grid)) ->
                     eval_clause a clause = true).
Proof.
  intros Hgrid Hgen Hsat.
  pose proof (generate_problem_Ok grid (is_grid_shape9 grid Hgrid)) as Hok.
  rewrite Hgen in Hok. apply Ok_inj in Hok.
  repeat split; intros clause Hin;
    apply (eval_base_In a clauses clause Hsat); rewrite Hok;
    rewrite !in_app_iff; tauto.
Qed.

End Meaning.

(** X6: the encoding is sound.  For every 9x9 grid with entries in
    [[0, 9]] and every model whose positive literals are in [[1, 729]] and
    that satisfies the clauses of [generate_problem], the decoder returns a
    grid that follows the rules of Sudoku: a digit of [[1, 9]] in every
    cell, and every digit exactly once in every row, column and box. *)
Theorem model_decodes_to_solution (grid : Grid) (model : Model)
        (clauses : ClauseBase) :
  is_grid grid = true ->
  (forall v, In v model -> 0 < v -> v <= 729) ->
  generate_problem grid = Ok clauses ->
  eval_base (model_assignment model) clauses = true ->
  exists g, model_to_grid model = Ok g /\ valid_solution g.
Proof.
  intros Hgrid Hmodel Hgen Hsat.
  destruct (eval_base_families _ grid clauses Hgrid Hgen Hsat)
    as (Hcells & Hlines & Hcolumns & Hboxes & _).
  clear Hsat Hgen.
  destruct (decode_cells model Hmodel Hcells) as (g & Hdec & _ & Hat).
  exists g. split; [assumption|].
  apply (decoded_valid model g Hat Hlines Hcolumns Hboxes).
Qed.

Lemma model_decodes_to_solution_witness :
  exists g, model_to_grid (model_of solved) = Ok g /\ valid_solution g.
Proof.
  apply (model_decodes_to_solution example3 (model_of solved)
           (create_cell_constraints ++ create_line_constraints
              ++ create_column_constraints ++ create_box_constraints
              ++ map unit_clause (givens example3))).
  - reflexivity.
  - intros v Hv Hpos.
    assert (Hm : is_model (model_of solved)) by (vm_compute; reflexivity).
    pose proof (is_model_bounds _ v Hm Hv). lia.
  - apply generate_problem_Ok, is_grid_shape9. reflexivity.
  - vm_compute. reflexivity.
Defined.

Section EndToEnd.

Variable file_write : string -> string -> result unit.
Variable subprocess_run : list string -> result string.
Variable splitlines : string -> list string.
Variable int : string -> result Z.

(** X7: a solve that succeeds returns a solution of the puzzle.  On a 9x9
    grid with entries in [[0, 9]], when the file is written and
    [exec_gophersat] answers satisfiable with a model of the clause base
    whose positive literals are in [[1, 729]], [solve_sudoku] returns
    [True] with a grid that follows the rules of Sudoku and keeps every
    given. *)
Theorem solve_sudoku_solves (grid : Grid) (cmd filename : string)
        (clauses : ClauseBase) (model : Model) :
  is_grid grid = true ->
  generate_problem grid = Ok clauses ->
  file_write filename (clause_to_dimacs clauses 729) = Ok tt ->
  exec_gophersat subprocess_run splitlines int filename cmd
  = Ok (true, model) ->
  (forall v, In v model -> 0 < v -> v <= 729) ->
  eval_base (model_assignment model) clauses = true ->
  exists g,
    solve_sudoku file_write subprocess_run splitlines int grid cmd filename
    = ([WriteFile filename (clause_to_dimacs clauses 729);
        Print (nl ++ "Exécution de : " ++ cmd ++ " " ++ filename)%string],
       Ok (true, Some g))
    /\ valid_solution g /\ extends g grid.
Proof.
  intros Hgrid Hgen Hwrite Hexec Hmodel Hsat.
  destruct (eval_base_families _ grid _ Hgrid Hgen Hsat)
    as (Hcells & Hlines & Hcolumns & Hboxes & Hgivens).
  clear Hsat.
  destruct (decode_cells model Hmodel Hcells) as (g & Hdec & _ & Hat).
  exists g. split; [|split].
  - unfold solve_sudoku, write_dimacs_file.
    rewrite Hgen, Hwrite, Hexec, Hdec. reflexivity.
  - apply (decoded_valid model g Hat Hlines Hcolumns Hboxes).
  - intros i j k Hi Hj Hk Hne.
    pose proof (is_grid_entry grid i j k Hgrid Hk) as Hk09.
    apply (decode_cells_iff model g i j k Hat); try assumption; try lia.
    assert (Hunit : eval_clause (model_assignment model)
                                [cell_to_variable i j k] = true).
    { apply Hgivens. apply in_map_iff. exists (i, j, k).
      split; [reflexivity|]. apply In_givens. auto. }
    unfold eval_clause in Hunit. simpl in Hunit.
    rewrite orb_false_r, eval_positive in Hunit.
    + apply model_assignment_In. exact Hunit.
    + pose proof (cell_to_variable_bounds i j k Hi Hj ltac:(lia)). lia.
Qed.

(** X8: the decoder runs outside the [try] of [solve_sudoku].  When the
    file is written and [exec_gophersat] answers satisfiable with a model
    that holds a literal above 729, [solve_sudoku] does not return: the
    [IndexError] of the decoder escapes, after the file was written and
    the command printed. *)
Theorem solve_sudoku_decoder_error (grid : Grid) (cmd filename : string)
        (clauses : ClauseBase) (model : Model) (v : Z) :
  is_grid grid = true ->
  generate_problem grid = Ok clauses ->
  file_write filename (clause_to_dimacs clauses 729) = Ok tt ->
  exec_gophersat subprocess_run splitlines int filename cmd
  = Ok (true, model) ->
  In v model -> 729 < v ->
  solve_sudoku file_write subprocess_run splitlines int grid cmd filename
  = ([WriteFile filename (clause_to_dimacs clauses 729);
      Print (nl ++ "Exécution de : " ++ cmd ++ " " ++ filename)%string],
     Raise IndexError).
Proof.
  intros Hgrid Hgen Hwrite Hexec Hin Hv.
  unfold solve_sudoku, write_dimacs_file. rewrite Hgen, Hwrite, Hexec.
  unfold model_to_grid.
  rewrite (model_to_grid_loop_Raise model _ v shape9_initial Hin Hv).
  reflexivity.
Qed.

End EndToEnd.

Lemma solve_sudoku_solves_witness :
  exists g,
    solve_sudoku write_ok run_sat splitlines_stub int_decimal example3
                 "gophersat" "sudoku.cnf"
    = ([WriteFile "sudoku.cnf"
          (clause_to_dimacs
             (create_cell_constraints ++ create_line_constraints
                ++ create_column_constraints ++ create_box_constraints
                ++ map unit_clause (givens example3)) 729);
        Print (nl ++ "Exécution de : " ++ "gophersat" ++ " "
                  ++ "sudoku.cnf")%string],
       Ok (true, Some g))
    /\ valid_solution g /\ extends g example3.
Proof.
  apply (solve_sudoku_solves write_ok run_sat splitlines_stub int_decimal
           example3 "gophersat" "sudoku.cnf" _ (model_of solved)).
  - reflexivity.
  - apply generate_problem_Ok, is_grid_shape9. reflexivity.
  - reflexivity.
  - vm_compute. reflexivity.
  - intros v Hv Hpos.
    assert (Hm : is_model (model_of solved)) by (vm_compute; reflexivity).
    pose proof (is_model_bounds _ v Hm Hv). lia.
  - vm_compute. reflexivity.
Defined.

Lemma solve_sudoku_decoder_error_witness :
  solve_sudoku write_ok (fun _ => Ok "c")
               (fun _ => ["c"; "s SATISFIABLE"; "v 730 0"])
               int_decimal example3 "gophersat" "sudoku.cnf"
  = ([WriteFile "sudoku.cnf"
        (clause_to_dimacs
           (create_cell_constraints ++ create_line_constraints
              ++ create_column_constraints ++ create_box_constraints
              ++ map unit_clause (givens example3)) 729);
      Print (nl ++ "Exécution de : " ++ "gophersat" ++ " "
                ++ "sudoku.cnf")%string],
     Raise IndexError).
Proof.
  apply (solve_sudoku_decoder_error write_ok _ _ _ example3 "gophersat"
           "sudoku.cnf" _ [730] 730).
  - reflexivity.
  - apply generate_problem_Ok, is_grid_shape9. reflexivity.
  - reflexivity.
  - vm_compute. reflexivity.
  - simpl. auto.
  - lia.
Defined.

(** ** From a solution to a model *)

Section Completeness.

Lemma once_spec {A : Type} (p : A -> bool) (l : list A) :
  once p l = true ->
  exists x, In x l /\ p x = true
            /\ forall y, In y l -> p y = true -> y = x.
Proof.
  unfold once. destruct (List.filter p l) as [|x [|z rest]] eqn:Hf;
    try discriminate.
  intros _. exists x.
  assert (Hx : In x (List.filter p l)) by (rewrite Hf; simpl; auto).
  apply filter_In in Hx. destruct Hx as [Hx Hpx].
  split; [assumption|]. split; [assumption|].
  intros y Hy Hpy.
  assert (Hy' : In y (List.filter p l)) by (apply filter_In; auto).
  rewrite Hf in Hy'. destruct Hy' as [<- | []]. reflexivity.
Qed.

Lemma has_spec (g : Grid) (k i j : Z) :
  has g k i j = true <-> grid_at g i j = Some k.
Proof.
  unfold has. destruct (grid_at g i j) as [x|]; [|split; discriminate].
  rewrite Z.eqb_eq. split; [intros ->; reflexivity | intros H; injection H; auto].
Qed.

(** The check that computes implies the rules. *)
Lemma is_solution_valid (g : Grid) : is_solution g = true -> valid_solution g.
Proof.
  unfold is_solution. rewrite !andb_true_iff.
  intros [[[Hcells Hrows] Hcolumns] Hboxes].
  rewrite forallb_forall in Hcells, Hrows, Hcolumns, Hboxes.
  split; [|split; [|split]].
  - intros i j Hi Hj.
    specialize (Hcells i ltac:(apply In_range; lia)).
    rewrite forallb_forall in Hcells.
    specialize (Hcells j ltac:(apply In_range; lia)).
    destruct (grid_at g i j) as [k|]; [|discriminate].
    exists k. split; [reflexivity | lia].
  - intros i k Hi Hk.
    specialize (Hrows i ltac:(apply In_range; lia)).
    rewrite forallb_forall in Hrows.
    specialize (Hrows k ltac:(apply In_range; lia)).
    apply once_spec in Hrows. destruct Hrows as (j & Hj & Hat & Huniq).
    apply In_range in Hj. apply has_spec in Hat.
    exists j. split; [assumption|]. split; [assumption|].
    intros j' Hj' Hat'. apply Huniq; [apply In_range; lia|].
    apply has_spec. assumption.
  - intros j k Hj Hk.
    specialize (Hcolumns j ltac:(apply In_range; lia)).
    rewrite forallb_forall in Hcolumns.
    specialize (Hcolumns k ltac:(apply In_range; lia)).
    apply once_spec in Hcolumns. destruct Hcolumns as (i & Hi & Hat & Huniq).
    apply In_range in Hi. apply has_spec in Hat.
    exists i. split; [assumption|]. split; [assumption|].
    intros i' Hi' Hat'. apply Huniq; [apply In_range; lia|].
    apply has_spec. assumption.
  - intros br bc k Hbr Hbc Hk.
    specialize (Hboxes br ltac:(apply In_range; lia)).
    rewrite forallb_forall in Hboxes.
    specialize (Hboxes bc ltac:(apply In_range; lia)).
    rewrite forallb_forall in Hboxes.
    specialize (Hboxes k ltac:(apply In_range; lia)).
    apply once_spec in Hboxes.
    destruct Hboxes as ([i j] & Hij & Hat & Huniq).
    apply in_flat_map in Hij. destruct Hij as (i0 & Hi & Hij).
    apply in_map_iff in Hij. destruct Hij as (j0 & Heq & Hj).
    injection Heq as -> ->. apply In_range in Hi, Hj.
    apply has_spec in Hat. exists i, j. split; [auto|].
    split; [assumption|]. intros i' j' Hi' Hj' Hat'.
    assert (Heq : (i', j') = (i, j)).
    { apply Huniq; [|apply has_spec; assumption].
      apply in_flat_map. exists i'. split; [apply In_range; lia|].
      apply in_map_iff. exists j'.
      split; [reflexivity | apply In_range; lia]. }
    injection Heq as -> ->. auto.
Qed.

(** The positive literals of [model_of]: the variables of the digits the
    grid holds. *)
Lemma In_model_of (sol : Grid) (v : Z) :
  0 < v ->
  In v (model_of sol)
  <-> 1 <= v <= 729
      /\ grid_at sol (fst (fst (variable_to_cell v)))
                     (snd (fst (variable_to_cell v)))
         = Some (snd (variable_to_cell v) + 1).
Proof.
  intros Hv. unfold model_of. rewrite in_map_iff. split.
  - intros (w & Hw & Hin). apply In_range in Hin.
    destruct (variable_to_cell w) as [[i j] val] eqn:Hcell.
    destruct (grid_at sol i j) as [x|] eqn:Hat; [|lia].
    destruct (Z.eqb_spec x (val + 1)) as [->|]; [|lia].
    subst w. rewrite Hcell. simpl. split; [lia | assumption].
  - intros [Hrange Hat]. exists v. split; [|apply In_range; lia].
    destruct (variable_to_cell v) as [[i j] val]. simpl in Hat.
    rewrite Hat, Z.eqb_refl. reflexivity.
Qed.

Lemma In_model_of_cell (sol : Grid) (i j k : Z) :
  0 <= i < 9 -> 0 <= j < 9 -> 1 <= k <= 9 ->
  In (cell_to_variable i j k) (model_of sol) <-> grid_at sol i j = Some k.
Proof.
  intros Hi Hj Hk.
  pose proof (cell_to_variable_bounds i j k Hi Hj Hk) as Hb.
  rewrite In_model_of by lia. rewrite variable_to_cell_encode by lia.
  simpl. replace (k - 1 + 1) with k by lia. tauto.
Qed.

Lemma is_model_model_of (sol : Grid) : is_model (model_of sol).
Proof.
  unfold is_model, model_of. rewrite map_map.
  rewrite <- (map_id (range 1 730)) at 2. apply map_ext_in.
  intros w Hw. apply In_range in Hw.
  destruct (variable_to_cell w) as [[i j] val].
  destruct (grid_at sol i j) as [x|]; [destruct (x =? val + 1)|]; lia.
Qed.

Variable sol : Grid.
Hypothesis Hvalid : valid_solution sol.

Local Abbreviation a := (model_assignment (model_of sol)).

Lemma true_iff_holds (i j k : Z) :
  0 <= i < 9 -> 0 <= j < 9 -> 1 <= k <= 9 ->
  a (cell_to_variable i j k) = true <-> grid_at sol i j = Some k.
Proof.
  intros Hi Hj Hk. rewrite model_assignment_In.
  apply In_model_of_cell; assumption.
Qed.

Lemma solution_cell_constraints : eval_base a create_cell_constraints = true.
Proof.
  destruct Hvalid as (Hcells & _).
  unfold create_cell_constraints. apply eval_base_flat_map. intros i Hi.
  apply eval_base_flat_map. intros j Hj. apply In_range in Hi, Hj.
  destruct (Hcells i j Hi Hj) as (k & Hat & Hk).
  apply (unique_satisfied a _ (cell_to_variable i j k)).
  - apply NoDup_map_inj; [|apply NoDup_range].
    unfold cell_to_variable. intros; lia.
  - intros y Hy. apply in_map_iff in Hy. destruct Hy as (d & <- & Hd).
    apply In_range in Hd.
    pose proof (cell_to_variable_bounds i j d Hi Hj ltac:(lia)). lia.
  - apply in_map_iff. exists k. split; [reflexivity | apply In_range; lia].
  - apply true_iff_holds; assumption.
  - intros y Hy Hay. apply in_map_iff in Hy. destruct Hy as (d & <- & Hd).
    apply In_range in Hd. apply true_iff_holds in Hay; try lia.
    rewrite Hat in Hay. injection Hay as ->. reflexivity.
Qed.

Lemma solution_line_constraints : eval_base a create_line_constraints = true.
Proof.
  destruct Hvalid as (_ & Hrows & _).
  unfold create_line_constraints. apply eval_base_flat_map. intros i Hi.
  apply eval_base_flat_map. intros k Hk. apply In_range in Hi, Hk.
  destruct (Hrows i k Hi ltac:(lia)) as (j & Hj & Hat & Huniq).
  apply (unique_satisfied a _ (cell_to_variable i j k)).
  - apply NoDup_map_inj; [|apply NoDup_range].
    unfold cell_to_variable. intros; lia.
  - intros y Hy. apply in_map_iff in Hy. destruct Hy as (d & <- & Hd).
    apply In_range in Hd.
    pose proof (cell_to_variable_bounds i d k Hi Hd ltac:(lia)). lia.
  - apply in_map_iff. exists j. split; [reflexivity | apply In_range; lia].
  - apply true_iff_holds; (assumption || lia).
  - intros y Hy Hay. apply in_map_iff in Hy. destruct Hy as (d & <- & Hd).
    apply In_range in Hd. apply true_iff_holds in Hay; try lia.
    rewrite (Huniq d Hd Hay). reflexivity.
Qed.

Lemma solution_column_constraints :
  eval_base a create_column_constraints = true.
Proof.
  destruct Hvalid as (_ & _ & Hcolumns & _).
  unfold create_column_constraints. apply eval_base_flat_map. intros j Hj.
  apply eval_base_flat_map. intros k Hk. apply In_range in Hj, Hk.
  destruct (Hcolumns j k Hj ltac:(lia)) as (i & Hi & Hat & Huniq).
  apply (unique_satisfied a _ (cell_to_variable i j k)).
  - apply NoDup_map_inj; [|apply NoDup_range].
    unfold cell_to_variable. intros; lia.
  - intros y Hy. apply in_map_iff in Hy. destruct Hy as (d & <- & Hd).
    apply In_range in Hd.
    pose proof (cell_to_variable_bounds d j k Hd Hj ltac:(lia)). lia.
  - apply in_map_iff. exists i. split; [reflexivity | apply In_range; lia].
  - apply true_iff_holds; (assumption || lia).
  - intros y Hy Hay. apply in_map_iff in Hy. destruct Hy as (d & <- & Hd).
    apply In_range in Hd. apply true_iff_holds in Hay; try lia.
    rewrite (Huniq d Hd Hay). reflexivity.
Qed.

Lemma solution_box_constraints : eval_base a create_box_constraints = true.
Proof.
  destruct Hvalid as (_ & _ & _ & Hboxes).
  unfold create_box_constraints. apply eval_base_flat_map. intros br Hbr.
  apply eval_base_flat_map. intros bc Hbc.
  apply eval_base_flat_map. intros k Hk. apply In_range in Hbr, Hbc, Hk.
  change (eval_base a (unique (box_vars br bc k)) = true).
  destruct (Hboxes br bc k Hbr Hbc ltac:(lia))
    as (i & j & [Hi Hj] & Hat & Huniq).
  apply (unique_satisfied a _
           (cell_to_variable (br * 3 + i) (bc * 3 + j) k)).
  - apply NoDup_box_vars.
  - intros y Hy. apply In_box_vars in Hy.
    destruct Hy as (i' & j' & [Hi' Hj'] & ->).
    pose proof (cell_to_variable_bounds (br * 3 + i') (bc * 3 + j') k
                  ltac:(lia) ltac:(lia) ltac:(lia)). lia.
  - apply In_box_vars. exists i, j. auto.
  - apply true_iff_holds; (assumption || lia).
  - intros y Hy Hay. apply In_box_vars in Hy.
    destruct Hy as (i' & j' & [Hi' Hj'] & ->).
    apply true_iff_holds in Hay; try lia.
    destruct (Huniq i' j' Hi' Hj' Hay) as [-> ->]. reflexivity.
Qed.

Lemma solution_decodes : is_grid sol = true ->
  model_to_grid (model_of sol) = Ok sol.
Proof.
  intros Hgrid. destruct Hvalid as (Hcells & _).
  unfold model_to_grid.
  destruct (model_to_grid_loop (model_of sol) _ shape9_initial)
    as (g & Hloop & Hg & Hat).
  { intros v Hv _.
    pose proof (is_model_bounds _ v (is_model_model_of sol) Hv). lia. }
  rewrite Hloop. f_equal.
  apply grid_ext; [assumption | apply is_grid_shape9; assumption |].
  intros i j Hi Hj.
  rewrite (Hat i j 0) by (lia || apply grid_at_initial; assumption).
  destruct (Hcells i j Hi Hj) as (k & Hk & Hk19). rewrite Hk. f_equal.
  destruct (decoded_cases (model_of sol) i j 0)
    as [[_ Hno] | (v & Hv & Hpos & Hcell & ->)].
  - exfalso. apply Hno. exists (cell_to_variable i j k).
    split; [apply In_model_of_cell; assumption|]. split.
    + pose proof (cell_to_variable_bounds i j k Hi Hj Hk19). lia.
    + rewrite variable_to_cell_encode by lia. reflexivity.
  - apply In_model_of in Hv; [|assumption]. destruct Hv as [_ Hv].
    rewrite Hcell in Hv. simpl in Hv. rewrite Hk in Hv.
    injection Hv as ->. reflexivity.
Qed.

End Completeness.

(** The model of a solution satisfies the clause base of every puzzle the
    solution extends. *)
Lemma solution_satisfies (puzzle sol : Grid) :
  is_grid puzzle = true -> valid_solution sol -> extends sol puzzle ->
  eval_base (model_assignment (model_of sol))
            (create_cell_constraints ++ create_line_constraints
               ++ create_column_constraints ++ create_box_constraints
               ++ map unit_clause (givens puzzle)) = true.
Proof.
  intros Hpuzzle Hvalid Hext.
  rewrite !eval_base_app.
  rewrite (solution_cell_constraints sol Hvalid).
  rewrite (solution_line_constraints sol Hvalid).
  rewrite (solution_column_constraints sol Hvalid).
  rewrite (solution_box_constraints sol Hvalid).
  cbn [andb]. apply forallb_forall. intros clause Hin.
  apply in_map_iff in Hin. destruct Hin as ([[i j] k] & <- & Hg).
  apply In_givens in Hg. destruct Hg as ([Hi Hj] & Hk & Hne).
  pose proof (is_grid_entry puzzle i j k Hpuzzle Hk) as Hk09.
  unfold unit_clause, eval_clause. cbn [existsb].
  rewrite orb_false_r, eval_positive.
  - apply true_iff_holds; try assumption; try lia.
    apply Hext; assumption.
  - pose proof (cell_to_variable_bounds i j k Hi Hj ltac:(lia)). lia.
Qed.

(** X9: the encoding is complete, and decoding inverts encoding.  For
    every puzzle and every completed 9x9 grid that follows the rules of
    Sudoku and keeps the givens of the puzzle, the model that lists [v] for
    the digits the grid holds and [-v] for the others has one literal per
    variable of [[1, 729]], satisfies every clause of [generate_problem] on
    the puzzle, and decodes to the completed grid. *)
Theorem solution_is_model (puzzle sol : Grid) :
  is_grid puzzle = true -> is_grid sol = true ->
  valid_solution sol -> extends sol puzzle ->
  exists clauses,
    generate_problem puzzle = Ok clauses
    /\ is_model (model_of sol)
    /\ eval_base (model_assignment (model_of sol)) clauses = true
    /\ model_to_grid (model_of sol) = Ok sol.
Proof.
  intros Hpuzzle Hsol Hvalid Hext.
  eexists. split; [apply generate_problem_Ok, is_grid_shape9; assumption|].
  split; [apply is_model_model_of|].
  split; [|apply solution_decodes; assumption].
  apply solution_satisfies; assumption.
Qed.

Lemma solution_is_model_witness :
  exists clauses,
    generate_problem example3 = Ok clauses
    /\ is_model (model_of solved)
    /\ eval_base (model_assignment (model_of solved)) clauses = true
    /\ model_to_grid (model_of solved) = Ok solved.
Proof.
  apply (solution_is_model example3 solved).
  - reflexivity.
  - reflexivity.
  - apply is_solution_valid. vm_compute. reflexivity.
  - intros i j k Hi Hj Hk Hne.
    assert (Hin : In (i, j, k) (givens example3)) by (apply In_givens; auto).
    vm_compute in Hin.
    repeat (destruct Hin as [Hin | Hin];
            [injection Hin as <- <- <-; reflexivity|]).
    destruct Hin.
Defined.

(** ** Grids the encoder was not made for *)

Section Malformed.

Lemma getitem_raises {A : Type} (l : list A) (i : Z) (e : exn) :
  getitem l i = Raise e -> e = IndexError.
Proof.
  unfold getitem. destruct (_ <? 0); [intros H; injection H; auto|].
  destruct (l !! _); [discriminate | intros H; injection H; auto].
Qed.

(** A loop whose body only raises [e] only raises [e], and does so as soon
    as one of its turns raises whatever the state. *)
Lemma for_raises {A S : Type} (l : list A) (body : A -> S -> result S)
      (e : exn) (x : A) :
  (forall y s e', body y s = Raise e' -> e' = e) ->
  In x l -> (forall s, body x s = Raise e) ->
  forall s, for_ l body s = Raise e.
Proof.
  intros Honly Hx Hraise. induction l as [|y l IH]; [destruct Hx|].
  intros s. simpl. destruct (body y s) as [s'|e'] eqn:Hy.
  - simpl. destruct Hx as [-> | Hx]; [|now apply IH].
    rewrite Hraise in Hy. discriminate.
  - rewrite (Honly y s e' Hy). reflexivity.
Qed.

Lemma for_only_raises {A S : Type} (l : list A) (body : A -> S -> result S)
      (e : exn) :
  (forall y s e', body y s = Raise e' -> e' = e) ->
  forall s e', for_ l body s = Raise e' -> e' = e.
Proof.
  intros Honly. induction l as [|y l IH]; intros s e'; simpl.
  - discriminate.
  - destruct (body y s) as [s'|e''] eqn:Hy; simpl.
    + apply IH.
    + intros H. injection H as <-. now apply (Honly y s).
Qed.

Lemma value_body_raises (grid : Grid) (i j : Z) (s : ClauseBase) (e : exn) :
  bind (getitem grid i) (fun row =>
  bind (getitem row j) (fun x =>
  if negb (x =? 0) then
    bind (getitem grid i) (fun row =>
    bind (getitem row j) (fun k =>
    Ok (s ++ [[cell_to_variable i j k]])))
  else Ok s)) = Raise e ->
  e = IndexError.
Proof.
  destruct (getitem grid i) as [row|e1] eqn:Hrow; simpl;
    [|intros H; injection H as <-; now apply getitem_raises in Hrow].
  destruct (getitem row j) as [x|e2] eqn:Hx; simpl;
    [|intros H; injection H as <-; now apply getitem_raises in Hx].
  destruct (negb (x =? 0)); simpl; discriminate.
Qed.

End Malformed.

(** X10: a grid that is too small is refused by an [IndexError] and
    nothing else.  When row [i] of the grid, for some [i] of [[0, 9)], is
    missing or has fewer than nine entries, [generate_problem] raises
    [IndexError], and [solve_sudoku] raises it too, before it writes the
    file or prints anything. *)
Theorem generate_problem_malformed (grid : Grid) (i : Z)
        (file_write : string -> string -> result unit)
        (subprocess_run : list string -> result string)
        (splitlines : string -> list string) (int : string -> result Z)
        (cmd filename : string) :
  0 <= i < 9 ->
  (forall row, grid !! Z.to_nat i = Some row -> (length row < 9)%nat) ->
  generate_problem grid = Raise IndexError
  /\ solve_sudoku file_write subprocess_run splitlines int grid cmd filename
     = ([], Raise IndexError).
Proof.
  intros Hi Hrow.
  assert (Hvalue : create_value_constraints grid = Raise IndexError).
  { unfold create_value_constraints.
    apply (for_raises _ _ IndexError i).
    - intros y s e' Hy. eapply for_only_raises; [|exact Hy].
      intros j s' e''. apply value_body_raises.
    - apply In_range. lia.
    - intros s. destruct (grid !! Z.to_nat i) as [row|] eqn:Hlook.
      + specialize (Hrow row eq_refl).
        apply (for_raises _ _ IndexError (Z.of_nat (length row))).
        * intros j s' e''. apply value_body_raises.
        * apply In_range. lia.
        * intros s'. rewrite (getitem_Ok grid i row) by (lia || assumption).
          simpl. rewrite getitem_ge by (unfold len; lia). reflexivity.
      + apply (for_raises _ _ IndexError 0).
        * intros j s' e''. apply value_body_raises.
        * apply In_range. lia.
        * intros s'. apply lookup_ge_None_1 in Hlook.
          rewrite getitem_ge by (unfold len; lia). reflexivity. }
  assert (Hgen : generate_problem grid = Raise IndexError).
  { unfold generate_problem. rewrite Hvalue. reflexivity. }
  split; [assumption|]. unfold solve_sudoku. rewrite Hgen. reflexivity.
Qed.

Lemma generate_problem_malformed_witness :
  generate_problem (firstn 8 example) = Raise IndexError
  /\ solve_sudoku write_ok run_unsat splitlines_stub int_stub
                  (firstn 8 example) "gophersat" "sudoku.cnf"
     = ([], Raise IndexError).
Proof.
  apply (generate_problem_malformed (firstn 8 example) 8).
  - lia.
  - intros row Hrow. vm_compute in Hrow. discriminate.
Defined.

(** X11: the encoder does not check the digits.  In a 9x9 grid, an entry
    [k + 9] with [k] in [[1, 9]], in a cell [(i, j)] that is not in the
    last column, is not refused: it gives the unit clause of the digit [k]
    of the next cell [(i, j + 1)], because [cell_to_variable] maps both
    atoms to the same variable. *)
Theorem value_constraints_unchecked (grid : Grid) (i j k : Z) :
  shape9 grid -> 0 <= i < 9 -> 0 <= j < 8 -> 1 <= k <= 9 ->
  grid_at grid i j = Some (k + 9) ->
  cell_to_variable i j (k + 9) = cell_to_variable i (j + 1) k
  /\ exists clauses,
       generate_problem grid = Ok clauses
       /\ In [cell_to_variable i (j + 1) k] clauses.
Proof.
  intros Hshape Hi Hj Hk Hat.
  assert (Halias : cell_to_variable i j (k + 9)
                   = cell_to_variable i (j + 1) k)
    by (unfold cell_to_variable; lia).
  split; [assumption|].
  eexists. split; [apply generate_problem_Ok; assumption|].
  rewrite !in_app_iff. do 4 right. apply in_map_iff.
  exists (i, j, k + 9). split.
  - unfold unit_clause. rewrite Halias. reflexivity.
  - apply In_givens. repeat split; (lia || assumption).
Qed.

Lemma value_constraints_unchecked_witness :
  cell_to_variable 0 0 (1 + 9) = cell_to_variable 0 (0 + 1) 1
  /\ exists clauses,
       generate_problem (<[0%nat := <[0%nat := 10]> (repeat 0 9)]> empty)
       = Ok clauses
       /\ In [cell_to_variable 0 (0 + 1) 1] clauses.
Proof.
  apply (value_constraints_unchecked
           (<[0%nat := <[0%nat := 10]> (repeat 0 9)]> empty) 0 0 1).
  - split; [reflexivity|]. repeat constructor.
  - lia.
  - lia.
  - lia.
  - reflexivity.
Defined.

(** X12: every clause of the base of a 9x9 grid with entries in [[0, 9]]
    has one, two or nine literals, so none is empty, and no literal is 0,
    the end-of-line mark of the DIMACS format. *)
Theorem generate_problem_clause_shapes (grid : Grid) (clauses : ClauseBase)
        (clause : Clause) :
  is_grid grid = true ->
  generate_problem grid = Ok clauses ->
  In clause clauses ->
  (len clause = 1 \/ len clause = 2 \/ len clause = 9)
  /\ forall l, In l clause -> l <> 0.
Proof.
  intros Hgrid Hgen Hin.
  pose proof (generate_problem_Ok grid (is_grid_shape9 grid Hgrid)) as Hok.
  rewrite Hgen in Hok. apply Ok_inj in Hok. clear Hgen.
  rewrite Hok in Hin. clear Hok.
  rewrite !app_assoc in Hin. apply in_app_iff in Hin.
  rewrite <- !app_assoc in Hin. destruct Hin as [Hin | Hin].
  - assert (Hall : forallb (fun clause =>
                     ((len clause =? 2) || (len clause =? 9))
                     && forallb (fun l => negb (l =? 0)) clause)
                     (create_cell_constraints ++ create_line_constraints
                        ++ create_column_constraints
                        ++ create_box_constraints) = true)
      by (vm_compute; reflexivity).
    rewrite forallb_forall in Hall. specialize (Hall clause Hin).
    clear Hin. apply andb_true_iff in Hall. destruct Hall as [Hlen Hnz].
    split; [lia|]. intros l Hl. rewrite forallb_forall in Hnz.
    specialize (Hnz l Hl). lia.
  - apply in_map_iff in Hin. destruct Hin as ([[i j] k] & <- & Hg).
    apply In_givens in Hg. destruct Hg as ([Hi Hj] & Hk & Hne).
    pose proof (is_grid_entry grid i j k Hgrid Hk).
    split; [left; reflexivity|]. intros l [<- | []].
    pose proof (cell_to_variable_bounds i j k Hi Hj ltac:(lia)). lia.
Qed.

Lemma generate_problem_clause_shapes_witness :
  (len [5] = 1 \/ len [5] = 2 \/ len [5] = 9)
  /\ forall l, In l [5] -> l <> 0.
Proof.
  apply (generate_problem_clause_shapes example3
           (create_cell_constraints ++ create_line_constraints
              ++ create_column_constraints ++ create_box_constraints
              ++ map unit_clause (givens example3)) [5]).
  - reflexivity.
  - apply generate_problem_Ok, is_grid_shape9. reflexivity.
  - rewrite !in_app_iff. do 4 right. vm_compute. auto.
Defined.

(** ** The text written for the solver and the text read from it *)

Section Text.

Lemma append_nil_r (s : string) : (s ++ EmptyString)%string = s.
Proof.
  induction s as [|ch s IH]; [reflexivity|].
  rewrite append_String. now f_equal.
Qed.

Lemma join_lines (lines : list string) :
  lines <> [] ->
  (join nl lines ++ nl)%string
  = String.concat EmptyString (map (fun line => (line ++ nl)%string) lines).
Proof.
  unfold join. induction lines as [|s lines IH]; [congruence|]. intros _.
  destruct lines as [|s' lines]; [reflexivity|].
  change (String.concat nl (s :: s' :: lines))
    with (s ++ nl ++ String.concat nl (s' :: lines))%string.
  change (map (fun line : string => (line ++ nl)%string) (s :: s' :: lines))
    with ((s ++ nl)%string
            :: map (fun line : string => (line ++ nl)%string) (s' :: lines)).
  set (rest := map (fun line : string => (line ++ nl)%string) (s' :: lines))
    in *.
  assert (Hrest : String.concat EmptyString ((s ++ nl)%string :: rest)
                  = ((s ++ nl) ++ String.concat EmptyString rest)%string).
  { subst rest. reflexivity. }
  rewrite Hrest, <- IH by discriminate. now rewrite !append_assoc.
Qed.

Lemma count_LF_lines (lines : list string) :
  Forall (fun line => count_LF line = 0%nat) lines ->
  count_LF (String.concat EmptyString
              (map (fun line => (line ++ nl)%string) lines))
  = length lines.
Proof.
  intros Hlines. rewrite <- (length_map (fun line => (line ++ nl)%string)).
  apply count_LF_file. apply List.Forall_forall. intros s Hs.
  apply in_map_iff in Hs. destruct Hs as (line & <- & Hline).
  rewrite List.Forall_forall in Hlines.
  rewrite count_LF_append, (Hlines line Hline). reflexivity.
Qed.

Lemma length_append (s1 s2 : string) :
  String.length (s1 ++ s2)%string
  = (String.length s1 + String.length s2)%nat.
Proof.
  induction s1 as [|ch s1 IH]; [reflexivity|].
  rewrite append_String. simpl. now rewrite IH.
Qed.

Lemma substring_prefix (s t : string) :
  substring 0 (String.length s) (s ++ t)%string = s.
Proof.
  induction s as [|ch s IH]; [destruct t; reflexivity|].
  rewrite append_String. simpl. now rewrite IH.
Qed.

(** [line[2:-2]] takes a two-character prefix and a two-character suffix
    off. *)
Lemma slice_model_line (body : string) :
  slice ("v " ++ body ++ " 0")%string 2 (-2) = body.
Proof.
  unfold slice. rewrite !length_append.
  change (String.length "v ") with 2%nat.
  change (String.length " 0") with 2%nat.
  destruct (Z.ltb_spec 2 0) as [|_]; [lia|].
  destruct (Z.ltb_spec (-2) 0) as [_|]; [|lia].
  rewrite Z.min_l by lia. rewrite Z.max_l by lia.
  change (Z.to_nat 2) with 2%nat.
  replace (Z.to_nat (-2 + Z.of_nat (2 + (String.length body + 2)) - 2))
    with (String.length body) by lia.
  change (substring 0 (String.length body) (body ++ " 0")%string = body).
  apply substring_prefix.
Qed.

Lemma split_no_sep (sep : ascii) (s : string) :
  occurs sep s = false -> split sep s = [s].
Proof.
  induction s as [|ch s IH]; [reflexivity|]. simpl.
  destruct (Ascii.eqb ch sep); [discriminate|]. simpl.
  intros Hs. now rewrite (IH Hs).
Qed.

Lemma split_append (sep : ascii) (s t : string) :
  occurs sep s = false ->
  split sep (s ++ String sep t)%string = s :: split sep t.
Proof.
  induction s as [|ch s IH].
  - intros _. change (EmptyString ++ String sep t)%string with (String sep t).
    simpl. now rewrite Ascii.eqb_refl.
  - rewrite append_String. simpl.
    destruct (Ascii.eqb ch sep); [discriminate|]. simpl.
    intros Hs. now rewrite (IH Hs).
Qed.

(** Splitting at the spaces undoes joining with spaces. *)
Lemma split_join (l : list string) :
  l <> [] -> Forall (fun s => occurs " " s = false) l ->
  split " " (join " " l) = l.
Proof.
  unfold join. intros Hne Hl. induction Hl as [|s l Hs Hl IH]; [congruence|].
  destruct l as [|s' l]; [now apply split_no_sep|].
  change (String.concat " " (s :: s' :: l))
    with (s ++ String " " (String.concat " " (s' :: l)))%string.
  rewrite split_append by assumption. now rewrite IH.
Qed.

Lemma occurs_uint (d : Decimal.uint) :
  occurs " " (NilEmpty.string_of_uint d) = false.
Proof. induction d; simpl; auto. Qed.

Lemma occurs_str (n : Z) : occurs " " (str n) = false.
Proof.
  unfold str, NilZero.string_of_int, NilZero.string_of_uint.
  destruct (Z.to_int n) as [d|d]; destruct d;
    try reflexivity; apply occurs_uint.
Qed.

Lemma comprehension_map {A B : Type} (f : B -> result A) (g : A -> B)
      (l : list A) :
  (forall x, f (g x) = Ok x) -> comprehension f (map g l) = Ok l.
Proof.
  intros Hfg. induction l as [|x l IH]; [reflexivity|].
  simpl. rewrite Hfg. simpl. rewrite IH. reflexivity.
Qed.

Lemma int_decimal_str (n : Z) : int_decimal (str n) = Ok n.
Proof.
  unfold int_decimal, str. rewrite NilZero.isi.
  - now rewrite DecimalZ.of_to.
  - destruct n; simpl; try discriminate.
    intros H. injection H as H. revert H. apply Unsigned.to_uint_nonnil.
  - destruct n; simpl; try discriminate.
    intros H. injection H as H. revert H. apply Unsigned.to_uint_nonnil.
Qed.

End Text.

(** X13: for a clause base that is not empty, the text of
    [clause_to_dimacs] is the header, which reports the given variable
    count and the number of clauses, followed by one line per clause: its
    literals and the sentinel 0 separated by spaces, then a line feed.  The
    text has one line feed more than there are clauses, with no blank
    line. *)
Theorem clause_to_dimacs_lines (clauses : ClauseBase) (nb_vars : Z) :
  clauses <> [] ->
  clause_to_dimacs clauses nb_vars
  = (("p cnf " ++ str nb_vars ++ " " ++ str (len clauses) ++ nl)
       ++ String.concat EmptyString
            (map (fun clause => (join " " (map str clause) ++ " 0") ++ nl)
                 clauses))%string
  /\ count_LF (clause_to_dimacs clauses nb_vars) = S (length clauses).
Proof.
  intros Hne.
  assert (Heq : clause_to_dimacs clauses nb_vars
    = (("p cnf " ++ str nb_vars ++ " " ++ str (len clauses) ++ nl)
         ++ String.concat EmptyString
              (map (fun clause => (join " " (map str clause) ++ " 0") ++ nl)
                   clauses))%string).
  { unfold clause_to_dimacs. f_equal.
    rewrite join_lines by (destruct clauses; [congruence | discriminate]).
    now rewrite map_map. }
  split; [assumption|]. rewrite Heq.
  rewrite <- (map_map (fun clause => (join " " (map str clause) ++ " 0")%string)
                      (fun line => (line ++ nl)%string)).
  rewrite count_LF_append, count_LF_lines.
  - rewrite !count_LF_append, !count_LF_str, length_map. reflexivity.
  - apply List.Forall_forall. intros s Hs. apply in_map_iff in Hs.
    destruct Hs as (clause & <- & _).
    rewrite count_LF_append, count_LF_join; [reflexivity | reflexivity |].
    apply List.Forall_forall. intros s Hs. apply in_map_iff in Hs.
    destruct Hs as (n & <- & _). apply count_LF_str.
Qed.

Lemma clause_to_dimacs_lines_witness :
  clause_to_dimacs [[1; -2]; [3]] 3
  = (("p cnf " ++ str 3 ++ " " ++ str (len [[1; -2]; [3]]) ++ nl)
       ++ String.concat EmptyString
            (map (fun clause => (join " " (map str clause) ++ " 0") ++ nl)
                 [[1; -2]; [3]]))%string
  /\ count_LF (clause_to_dimacs [[1; -2]; [3]] 3) = 3%nat.
Proof. apply (clause_to_dimacs_lines [[1; -2]; [3]] 3). discriminate. Defined.

Section Reading.

Variable file_write : string -> string -> result unit.
Variable subprocess_run : list string -> result string.
Variable splitlines : string -> list string.
Variable int : string -> result Z.

(** X14: the answer of the solver is read back literal by literal.  When
    the second line of the output is [s SATISFIABLE] and the third is [v],
    the literals of a non-empty model and the sentinel 0 separated by
    spaces, and [int] reads what [str] writes, [exec_gophersat] returns
    [True] and exactly that model. *)
Theorem exec_gophersat_reads_model (filename cmd stdout line0 : string)
        (rest : list string) (model : Model) :
  (forall n, int (str n) = Ok n) ->
  subprocess_run [cmd; filename] = Ok stdout ->
  splitlines stdout
  = line0 :: "s SATISFIABLE"
      :: ("v " ++ join " " (map str model) ++ " 0")%string :: rest ->
  model <> [] ->
  exec_gophersat subprocess_run splitlines int filename cmd
  = Ok (true, model).
Proof.
  intros Hint Hrun Hlines Hne. unfold exec_gophersat.
  rewrite Hrun. simpl. rewrite Hlines.
  rewrite (getitem_Ok _ 1 "s SATISFIABLE") by (lia || reflexivity). simpl.
  rewrite slice_model_line, split_join.
  - rewrite (comprehension_map int str model Hint). reflexivity.
  - destruct model; [congruence | discriminate].
  - apply List.Forall_forall. intros s Hs. apply in_map_iff in Hs.
    destruct Hs as (n & <- & _). apply occurs_str.
Qed.

(** X15: an output that is too short counts as a failed solve.  When the
    output has fewer than two lines, or says [s SATISFIABLE] without a
    third line, [exec_gophersat] raises [IndexError]; and on a 9x9 grid
    whose file is written, [solve_sudoku] prints the error line for that
    exception and returns [(False, None)]. *)
Theorem exec_gophersat_short_output (grid : Grid) (clauses : ClauseBase)
        (filename cmd stdout : string) :
  is_grid grid = true ->
  generate_problem grid = Ok clauses ->
  file_write filename (clause_to_dimacs clauses 729) = Ok tt ->
  subprocess_run [cmd; filename] = Ok stdout ->
  ((length (splitlines stdout) < 2)%nat
   \/ exists line0, splitlines stdout = [line0; "s SATISFIABLE"]) ->
  exec_gophersat subprocess_run splitlines int filename cmd
  = Raise IndexError
  /\ solve_sudoku file_write subprocess_run splitlines int grid cmd filename
     = ([WriteFile filename (clause_to_dimacs clauses 729);
         Print (nl ++ "Exécution de : " ++ cmd ++ " " ++ filename)%string;
         Print ("Erreur lors de l'exécution : "
                  ++ "list index out of range")%string],
        Ok (false, None)).
Proof.
  intros Hgrid Hgen Hwrite Hrun Hshort.
  assert (Hexec : exec_gophersat subprocess_run splitlines int filename cmd
                  = Raise IndexError).
  { unfold exec_gophersat. rewrite Hrun. simpl.
    destruct Hshort as [Hlen | [line0 Hlines]].
    - rewrite getitem_ge by (unfold len; lia). reflexivity.
    - rewrite Hlines.
      rewrite (getitem_Ok _ 1 "s SATISFIABLE") by (lia || reflexivity).
      reflexivity. }
  split; [assumption|].
  unfold solve_sudoku, write_dimacs_file.
  rewrite Hgen, Hwrite, Hexec. reflexivity.
Qed.

End Reading.

Lemma exec_gophersat_reads_model_witness :
  exec_gophersat (fun _ => Ok "c")
    (fun _ => ["c"; "s SATISFIABLE";
               ("v " ++ join " " (map str [1; -2; 3]) ++ " 0")%string])
    int_decimal "sudoku.cnf" "gophersat"
  = Ok (true, [1; -2; 3]).
Proof.
  apply (exec_gophersat_reads_model _ _ int_decimal "sudoku.cnf" "gophersat"
           "c" "c" [] [1; -2; 3]).
  - apply int_decimal_str.
  - reflexivity.
  - reflexivity.
  - discriminate.
Defined.

Lemma exec_gophersat_short_output_witness :
  exec_gophersat (fun _ => Ok "c") (fun _ => ["c"]) int_stub
                 "sudoku.cnf" "gophersat"
  = Raise IndexError
  /\ solve_sudoku write_ok (fun _ => Ok "c") (fun _ => ["c"]) int_stub
                  example3 "gophersat" "sudoku.cnf"
     = ([WriteFile "sudoku.cnf"
           (clause_to_dimacs
              (create_cell_constraints ++ create_line_constraints
                 ++ create_column_constraints ++ create_box_constraints
                 ++ map unit_clause (givens example3)) 729);
         Print (nl ++ "Exécution de : " ++ "gophersat" ++ " "
                   ++ "sudoku.cnf")%string;
         Print ("Erreur lors de l'exécution : "
                  ++ "list index out of range")%string],
        Ok (false, None)).
Proof.
  apply (exec_gophersat_short_output write_ok _ _ int_stub example3 _
           "sudoku.cnf" "gophersat" "c").
  - reflexivity.
  - apply generate_problem_Ok, is_grid_shape9. reflexivity.
  - reflexivity.
  - reflexivity.
  - left. simpl. lia.
Defined.

(** ** TP2: what the colouring clauses say *)

Section ColouringMeaning.

Import TP2.

Lemma clauses_clause_lists (graph : Graph) (couleurs_int : list Z) :
  clauses graph couleurs_int
  = map clause_line (clause_lists graph couleurs_int).
Proof.
  unfold clauses, clause_lists. rewrite !map_app, map_map, !map_flat_map'.
  f_equal. f_equal.
  - apply flat_map_ext. intros j. now rewrite map_map.
  - apply flat_map_ext. intros [u v]. now rewrite map_map.
Qed.

Variable a : assignment.

Ltac colour_cases i Hi :=
  assert (i = 1 \/ i = 2 \/ i = 3) as [-> | [-> | ->]] by lia.

(** The four clauses of a vertex hold exactly when one colour of the
    vertex, and no other, is true. *)
Lemma vertex_exactly_one (j : Z) :
  0 <= j ->
  (eval_clause a [j * 3 + 1; j * 3 + 2; j * 3 + 3] = true
   /\ eval_clause a [- (j * 3 + 1); - (j * 3 + 2)] = true
   /\ eval_clause a [- (j * 3 + 1); - (j * 3 + 3)] = true
   /\ eval_clause a [- (j * 3 + 2); - (j * 3 + 3)] = true)
  <-> exists i, 1 <= i <= 3 /\ a (j * 3 + i) = true
                /\ forall i', 1 <= i' <= 3 -> a (j * 3 + i') = true -> i' = i.
Proof.
  intros Hj. unfold eval_clause. cbn [existsb].
  rewrite !eval_positive, !eval_negative by lia.
  destruct (a (j * 3 + 1)) eqn:H1, (a (j * 3 + 2)) eqn:H2,
           (a (j * 3 + 3)) eqn:H3; cbn [negb orb]; split;
    try (intros (_ & Ha & Hb & Hc); discriminate);
    try (intros (Ha & _); discriminate).
  all: try (intros (i & Hi & Hai & Huniq);
            pose proof (Huniq 1 ltac:(lia)) as U1;
            pose proof (Huniq 2 ltac:(lia)) as U2;
            pose proof (Huniq 3 ltac:(lia)) as U3;
            first [ specialize (U1 H1); specialize (U2 H2); lia
                  | specialize (U1 H1); specialize (U3 H3); lia
                  | specialize (U2 H2); specialize (U3 H3); lia
                  | colour_cases i Hi; congruence
                  | tauto ]).
  - intros _. exists 1. split; [lia|]. split; [assumption|].
    intros i' Hi' Hai'. colour_cases i' Hi'; congruence.
  - intros _. exists 2. split; [lia|]. split; [assumption|].
    intros i' Hi' Hai'. colour_cases i' Hi'; congruence.
  - intros _. exists 3. split; [lia|]. split; [assumption|].
    intros i' Hi' Hai'. colour_cases i' Hi'; congruence.
Qed.

(** X16: the colouring clauses mean a proper 3-colouring.  For a graph
    whose vertices are not negative, the lines of [graph.cnf] after the
    header are the writings of the clauses built in the three loops, and
    an assignment satisfies these clauses exactly when every vertex has one
    true colour and no other, and no edge has the same true colour at both
    ends. *)
Theorem colouring_meaning (graph : Graph) (num_colors : Z) :
  (forall j, In j (nodes graph) -> 0 <= j) ->
  (forall u v, In (u, v) (edges graph) -> 0 <= u /\ 0 <= v) ->
  generate_dimacs_cnf graph num_colors
  = Ok (header graph :: map clause_line (clause_lists graph [1; 2; 3]))
  /\ (eval_base a (clause_lists graph [1; 2; 3]) = true
      <-> (forall j, In j (nodes graph) ->
             exists i, 1 <= i <= 3 /\ a (j * 3 + i) = true
                       /\ forall i', 1 <= i' <= 3 ->
                            a (j * 3 + i') = true -> i' = i)
          /\ (forall u v i, In (u, v) (edges graph) -> 1 <= i <= 3 ->
                a (u * 3 + i) = true -> a (v * 3 + i) = true -> False)).
Proof.
  intros Hnodes Hedges. split.
  { unfold generate_dimacs_cnf. rewrite <- clauses_clause_lists.
    reflexivity. }
  unfold clause_lists. change (len couleurs) with 3.
  rewrite !eval_base_app, !andb_true_iff.
  unfold eval_base. rewrite !forallb_forall. split.
  - intros (Hone & Hpairs & Hedge). split.
    + intros j Hj. apply vertex_exactly_one; [auto|]. repeat split.
      * apply Hone. apply in_map_iff. exists j. auto.
      * apply Hpairs. apply in_flat_map. exists j. simpl. auto.
      * apply Hpairs. apply in_flat_map. exists j. simpl. auto.
      * apply Hpairs. apply in_flat_map. exists j. simpl. auto.
    + intros u v i Huv Hi Hu Hv. destruct (Hedges u v Huv) as [Hu0 Hv0].
      assert (Hc : eval_clause a [- (u * 3 + i); - (v * 3 + i)] = true).
      { apply Hedge. apply in_flat_map. exists (u, v).
        split; [assumption|]. colour_cases i Hi; simpl; auto. }
      rewrite eval_pair_false in Hc by (lia || assumption). discriminate.
  - intros [Hcolour Hproper]. repeat split.
    + intros clause Hin. apply in_map_iff in Hin.
      destruct Hin as (j & <- & Hj).
      apply (vertex_exactly_one j (Hnodes j Hj)). auto.
    + intros clause Hin. apply in_flat_map in Hin.
      destruct Hin as (j & Hj & Hin).
      pose proof (proj2 (vertex_exactly_one j (Hnodes j Hj))
                        (Hcolour j Hj)) as (_ & H12 & H13 & H23).
      simpl in Hin. destruct Hin as [<- | [<- | [<- | []]]]; assumption.
    + intros clause Hin. apply in_flat_map in Hin.
      destruct Hin as ([u v] & Huv & Hin).
      destruct (Hedges u v Huv) as [Hu0 Hv0].
      apply in_map_iff in Hin. destruct Hin as (i & <- & Hi).
      assert (Hi' : 1 <= i <= 3) by (simpl in Hi; lia).
      unfold eval_clause. cbn [existsb].
      rewrite !eval_negative by lia.
      destruct (a (u * 3 + i)) eqn:Hu, (a (v * 3 + i)) eqn:Hv;
        try reflexivity.
      exfalso. apply (Hproper u v i Huv Hi' Hu Hv).
Qed.

End ColouringMeaning.

Lemma colouring_meaning_witness :
  TP2.generate_dimacs_cnf triangle 3
  = Ok (TP2.header triangle
          :: map clause_line (clause_lists triangle [1; 2; 3])).
Proof.
  apply (colouring_meaning (fun _ => true) triangle 3).
  - simpl. lia.
  - simpl. intros u v [H | [H | [H | []]]]; injection H as <- <-; lia.
Defined.

(** X17: the header of [graph.cnf] counts enough variables when the
    vertices are numbered from zero.  For a graph whose vertices, and the
    ends of whose edges, are in [[0, |V|)], every literal of the colouring
    clauses is a variable of [[1, |V| * 3]] or its negation, the count the
    header gives. *)
Theorem colouring_variables (graph : TP2.Graph) (clause : list Z) (l : Z) :
  (forall j, In j (TP2.nodes graph) -> 0 <= j < len (TP2.nodes graph)) ->
  (forall u v, In (u, v) (TP2.edges graph) ->
     0 <= u < len (TP2.nodes graph) /\ 0 <= v < len (TP2.nodes graph)) ->
  In clause (clause_lists graph [1; 2; 3]) -> In l clause ->
  1 <= Z.abs l <= TP2.variables graph.
Proof.
  intros Hnodes Hedges Hclause Hl.
  unfold TP2.variables. unfold clause_lists in Hclause.
  change (len TP2.couleurs) with 3 in *.
  rewrite !in_app_iff in Hclause. destruct Hclause as [Hc | [Hc | Hc]].
  - apply in_map_iff in Hc. destruct Hc as (j & <- & Hj).
    specialize (Hnodes j Hj). simpl in Hl. lia.
  - apply in_flat_map in Hc. destruct Hc as (j & Hj & Hc).
    specialize (Hnodes j Hj). simpl in Hc.
    destruct Hc as [<- | [<- | [<- | []]]]; simpl in Hl; lia.
  - apply in_flat_map in Hc. destruct Hc as ([u v] & Huv & Hc).
    destruct (Hedges u v Huv) as [Hu Hv]. simpl in Hc.
    destruct Hc as [<- | [<- | [<- | []]]]; simpl in Hl; lia.
Qed.

Lemma colouring_variables_witness :
  1 <= Z.abs (- (1 * 3 + 2)) <= TP2.variables triangle.
Proof.
  apply (colouring_variables triangle [- (0 * 3 + 2); - (1 * 3 + 2)]).
  - simpl. unfold len. simpl. lia.
  - simpl. unfold len. simpl.
    intros u v [H | [H | [H | []]]]; injection H as <- <-; lia.
  - vm_compute. tauto.
  - simpl. auto.
Defined.

(** ** Printing a grid, and the program as it is run *)

Section Printing.

(** One turn of the inner loop on an entry that is there: the bar, if it
    is due, and the entry as it is shown. *)
Lemma pprint_cell_spec (grid : Grid) (i j : Z) (row : string)
      (r : list Z) (x : Z) :
  0 <= i -> 0 <= j < 9 ->
  grid !! Z.to_nat i = Some r -> r !! Z.to_nat j = Some x ->
  pprint_cell grid i j row
  = ([], Ok ((row ++ show_bar j) ++ show_entry x)%string).
Proof.
  intros Hi Hj Hr Hx. unfold pprint_cell.
  rewrite (getitem_Ok grid i r) by (lia || assumption). simpl bind.
  rewrite (getitem_Ok r j x) by (lia || assumption).
  unfold lift, show_entry. cbn [io_bind].
  assert (Hbar : (if (j mod 3 =? 0) && negb (j =? 0)
                  then (row ++ "|")%string else row)
                 = (row ++ show_bar j)%string).
  { unfold show_bar.
    assert (j = 0 \/ j = 1 \/ j = 2 \/ j = 3 \/ j = 4 \/ j = 5 \/ j = 6
            \/ j = 7 \/ j = 8) as Hcases by lia.
    destruct Hcases as [-> | [-> | [-> | [-> | [-> | [-> | [-> | [-> | ->]]]]]]]];
      cbn [Z.modulo Z.eqb andb orb negb]; try reflexivity;
      now rewrite append_nil_r. }
  rewrite Hbar.
  destruct (Z.eqb_spec x 0) as [-> | Hx0]; [reflexivity|]. cbn [negb].
  destruct (Z.gtb_spec x 0) as [Hpos | Hneg]; cbn [io_bind io_ret app].
  - destruct (Z.ltb_spec 0 x); [reflexivity | lia].
  - destruct (Z.ltb_spec 0 x); [lia | reflexivity].
Qed.

(** The inner loop on a row of nine entries builds the text of the row. *)
Lemma pprint_row_spec (grid : Grid) (i : Z) (r : list Z) :
  0 <= i -> grid !! Z.to_nat i = Some r -> length r = 9%nat ->
  io_for (range 0 9) (pprint_cell grid i) EmptyString
  = ([], Ok (String.concat EmptyString
               (map (fun '(j, x) => (show_bar j ++ show_entry x)%string)
                    (combine (range 0 9) r)))).
Proof.
  intros Hi Hr Hlen.
  destruct r as [|x0 [|x1 [|x2 [|x3 [|x4 [|x5 [|x6 [|x7 [|x8 [|x9 r]]]]]]]]]];
    try discriminate Hlen.
  change (range 0 9) with [0; 1; 2; 3; 4; 5; 6; 7; 8].
  cbn [io_for].
  rewrite (pprint_cell_spec grid i 0 _ _ x0 Hi ltac:(lia) Hr eq_refl).
  cbn [io_bind io_for].
  rewrite (pprint_cell_spec grid i 1 _ _ x1 Hi ltac:(lia) Hr eq_refl).
  cbn [io_bind io_for].
  rewrite (pprint_cell_spec grid i 2 _ _ x2 Hi ltac:(lia) Hr eq_refl).
  cbn [io_bind io_for].
  rewrite (pprint_cell_spec grid i 3 _ _ x3 Hi ltac:(lia) Hr eq_refl).
  cbn [io_bind io_for].
  rewrite (pprint_cell_spec grid i 4 _ _ x4 Hi ltac:(lia) Hr eq_refl).
  cbn [io_bind io_for].
  rewrite (pprint_cell_spec grid i 5 _ _ x5 Hi ltac:(lia) Hr eq_refl).
  cbn [io_bind io_for].
  rewrite (pprint_cell_spec grid i 6 _ _ x6 Hi ltac:(lia) Hr eq_refl).
  cbn [io_bind io_for].
  rewrite (pprint_cell_spec grid i 7 _ _ x7 Hi ltac:(lia) Hr eq_refl).
  cbn [io_bind io_for].
  rewrite (pprint_cell_spec grid i 8 _ _ x8 Hi ltac:(lia) Hr eq_refl).
  cbn [io_bind io_for io_ret app]. f_equal. f_equal.
  cbn [combine map String.concat].
  rewrite !append_assoc. reflexivity.
Qed.

(** The outer loop of [pprint_grid] around any inner loop that prints
    nothing and builds the texts [rows]. *)
Lemma pprint_rows (inner : Z -> io string) (rows : Z -> string) :
  (forall i, 0 <= i < 9 -> inner i = ([], Ok (rows i))) ->
  io_bind
    (io_for (range 0 9) (fun i _ =>
       io_bind (if (i mod 3 =? 0) && negb (i =? 0)
                then print (str_mul "-" 21) else io_ret tt) (fun _ =>
       io_bind (inner i) (fun row => print (strip row))))
       tt)
    (fun _ => print EmptyString)
  = ([Print (strip (rows 0)); Print (strip (rows 1)); Print (strip (rows 2));
      Print "---------------------";
      Print (strip (rows 3)); Print (strip (rows 4)); Print (strip (rows 5));
      Print "---------------------";
      Print (strip (rows 6)); Print (strip (rows 7)); Print (strip (rows 8));
      Print EmptyString],
     Ok tt).
Proof.
  intros Hinner.
  pose proof (Hinner 0 ltac:(lia)) as H0.
  pose proof (Hinner 1 ltac:(lia)) as H1.
  pose proof (Hinner 2 ltac:(lia)) as H2.
  pose proof (Hinner 3 ltac:(lia)) as H3.
  pose proof (Hinner 4 ltac:(lia)) as H4.
  pose proof (Hinner 5 ltac:(lia)) as H5.
  pose proof (Hinner 6 ltac:(lia)) as H6.
  pose proof (Hinner 7 ltac:(lia)) as H7.
  pose proof (Hinner 8 ltac:(lia)) as H8.
  change (range 0 9) with [0; 1; 2; 3; 4; 5; 6; 7; 8].
  cbn [io_for]. rewrite H0, H1, H2, H3, H4, H5, H6, H7, H8. reflexivity.
Qed.

End Printing.

(** X18: on a grid of nine rows of nine entries, [pprint_grid] raises
    nothing and prints twelve lines: the nine rows in order, each as its
    entries are shown (a positive entry after a space, any other entry as
    a dot, a bar before the fourth and the seventh entry, no space at
    either end), a line of 21 dashes after the third and after the sixth
    row, and an empty line at the end. *)
Theorem pprint_grid_lines (grid : Grid) :
  shape9 grid ->
  exists r0 r1 r2 r3 r4 r5 r6 r7 r8,
    grid = [r0; r1; r2; r3; r4; r5; r6; r7; r8]
    /\ pprint_grid grid
       = ([Print (show_row r0); Print (show_row r1); Print (show_row r2);
           Print "---------------------";
           Print (show_row r3); Print (show_row r4); Print (show_row r5);
           Print "---------------------";
           Print (show_row r6); Print (show_row r7); Print (show_row r8);
           Print EmptyString],
          Ok tt).
Proof.
  intros [Hlen Hrows].
  destruct grid
    as [|r0 [|r1 [|r2 [|r3 [|r4 [|r5 [|r6 [|r7 [|r8 [|r9 grid]]]]]]]]]];
    try discriminate Hlen.
  exists r0, r1, r2, r3, r4, r5, r6, r7, r8. split; [reflexivity|].
  set (g := [r0; r1; r2; r3; r4; r5; r6; r7; r8]) in *.
  set (rows := fun i : Z =>
         String.concat EmptyString
           (map (fun '(j, x) => (show_bar j ++ show_entry x)%string)
                (combine (range 0 9) (nth (Z.to_nat i) g [])))).
  unfold pprint_grid.
  rewrite (pprint_rows
             (fun i => io_for (range 0 9) (pprint_cell g i) EmptyString)
             rows).
  - reflexivity.
  - intros i Hi. subst rows. cbv beta.
    assert (Hrow : g !! Z.to_nat i = Some (nth (Z.to_nat i) g [])).
    { assert (i = 0 \/ i = 1 \/ i = 2 \/ i = 3 \/ i = 4 \/ i = 5 \/ i = 6
              \/ i = 7 \/ i = 8) as Hcases by lia.
      destruct Hcases
        as [-> | [-> | [-> | [-> | [-> | [-> | [-> | [-> | ->]]]]]]]];
        reflexivity. }
    apply pprint_row_spec; [lia | exact Hrow |].
    apply (Forall_lookup_1 _ _ _ _ Hrows Hrow).
Qed.

Lemma pprint_grid_lines_witness :
  pprint_grid example
  = ([Print "5 3 5|. 7.|..."; Print "6..| 1 9 5|..."; Print ". 9 8|...|. 6.";
      Print "---------------------";
      Print "8..|. 6.|.. 3"; Print "4..| 8. 3|.. 1"; Print "7..|. 2.|.. 6";
      Print "---------------------";
      Print ". 6.|...| 2 8."; Print "...| 4 1 9|.. 5"; Print "...|. 8.|. 7 9";
      Print EmptyString],
     Ok tt).
Proof.
  destruct (pprint_grid_lines example)
    as (r0 & r1 & r2 & r3 & r4 & r5 & r6 & r7 & r8 & Hgrid & Hprint).
  - split; [reflexivity|]. repeat constructor.
  - unfold example in Hgrid.
    injection Hgrid as <- <- <- <- <- <- <- <- <-. exact Hprint.
Defined.

Section Program.

Variable file_write : string -> string -> result unit.
Variable subprocess_run : list string -> result string.
Variable splitlines : string -> list string.
Variable int : string -> result Z.

(** With a solver that only returns models of the clause base, the solve
    of the reference grid never returns a solution. *)
Lemma example_not_solved (cmd filename : string) :
  (forall clauses model,
     generate_problem example = Ok clauses ->
     exec_gophersat subprocess_run splitlines int filename cmd
     = Ok (true, model) ->
     eval_base (model_assignment model) clauses = true) ->
  match snd (solve_sudoku file_write subprocess_run splitlines int example
                          cmd filename) with
  | Ok (true, _) => False
  | _ => True
  end.
Proof.
  intros Hsound.
  pose proof (generate_problem_Ok example
                (is_grid_shape9 example eq_refl)) as Hok.
  unfold solve_sudoku, write_dimacs_file. rewrite Hok.
  destruct (file_write filename _) as [u|e]; [|exact I].
  destruct (exec_gophersat subprocess_run splitlines int filename cmd)
    as [[[] model]|e] eqn:Hexec; [|exact I|exact I].
  exfalso. specialize (Hsound _ model Hok eq_refl).
  rewrite (example_conflict _ _ Hok) in Hsound. discriminate Hsound.
Qed.

(** X19: the program as it is run never shows a solution.  [main] solves
    the reference grid [example], which has no solution; so with a solver
    that only returns models of the clause base, whatever else the solver
    and the file system do, [main] raises nothing and prints the title,
    the grid, what [solve_sudoku] prints, and last the line that says that
    Gophersat was not found or that the Sudoku has no solution. *)
Theorem main_reports_failure :
  (forall clauses model,
     generate_problem example = Ok clauses ->
     exec_gophersat subprocess_run splitlines int "sudoku.cnf"
                    "/usr/local/bin/gophersat"
     = Ok (true, model) ->
     eval_base (model_assignment model) clauses = true) ->
  main file_write subprocess_run splitlines int
  = ([Print ("Grille initiale " ++ nl)%string]
       ++ fst (pprint_grid example)
       ++ fst (solve_sudoku file_write subprocess_run splitlines int example
                            "/usr/local/bin/gophersat" "sudoku.cnf")
       ++ [Print "Erreur : Gophersat n'a pas été trouvé ou le Sudoku n'a pas de solution."],
     Ok tt).
Proof.
  intros Hsound.
  pose proof (example_not_solved "/usr/local/bin/gophersat" "sudoku.cnf"
                Hsound) as Hsolve.
  unfold main, gophersat_paths, main_loop, main_attempt.
  destruct (solve_sudoku file_write subprocess_run splitlines int example
                         "/usr/local/bin/gophersat" "sudoku.cnf")
    as [out r].
  cbn [snd] in Hsolve.
  destruct (pprint_grid example) as [shown r'] eqn:Hshown.
  assert (Hr : r' = Ok tt).
  { vm_compute in Hshown. injection Hshown as _ <-. reflexivity. }
  subst r'.
  destruct r as [[[] solution]|e]; [destruct Hsolve| |];
    cbn [fst negb io_bind print io_ret app]; rewrite !app_nil_r;
    reflexivity.
Qed.

End Program.

Lemma main_reports_failure_witness :
  main write_ok run_unsat splitlines_stub int_stub
  = ([Print ("Grille initiale " ++ nl)%string]
       ++ fst (pprint_grid example)
       ++ fst (solve_sudoku write_ok run_unsat splitlines_stub int_stub
                            example "/usr/local/bin/gophersat" "sudoku.cnf")
       ++ [Print "Erreur : Gophersat n'a pas été trouvé ou le Sudoku n'a pas de solution."],
     Ok tt).
Proof.
  apply (main_reports_failure write_ok run_unsat splitlines_stub int_stub).
  intros clauses model _ Hexec. vm_compute in Hexec. discriminate Hexec.
Defined.

(** ** The reduction as a whole *)

Section Reduction.

Lemma eval_literal_agree (a a' : assignment) (l : Z) :
  a (Z.abs l) = a' (Z.abs l) -> eval_literal a l = eval_literal a' l.
Proof.
  unfold eval_literal. destruct (Z.ltb_spec 0 l) as [Hl|Hl].
  - rewrite Z.abs_eq by lia. auto.
  - rewrite Z.abs_neq by lia. intros ->. reflexivity.
Qed.

(** Two assignments that agree on the variables of a clause base give it
    the same value. *)
Lemma eval_base_agree (a a' : assignment) (clauses : ClauseBase) :
  (forall v, In v (variables_of clauses) -> a v = a' v) ->
  eval_base a clauses = eval_base a' clauses.
Proof.
  unfold variables_of. induction clauses as [|clause clauses IH]; intros Hag.
  - reflexivity.
  - simpl. f_equal.
    + unfold eval_clause. clear IH.
      assert (Hc : forall l, In l clause -> a (Z.abs l) = a' (Z.abs l)).
      { intros l Hl. apply Hag. apply in_map. simpl.
        apply in_app_iff. auto. }
      clear Hag. induction clause as [|l clause IHc]; [reflexivity|].
      simpl. rewrite (eval_literal_agree a a' l) by (apply Hc; simpl; auto).
      f_equal. apply IHc. intros; apply Hc; simpl; auto.
    + apply IH. intros v Hv. apply Hag. simpl. rewrite map_app.
      apply in_app_iff. auto.
Qed.

Lemma model_from_agree (a : assignment) (v : Z) :
  1 <= v <= 729 -> model_assignment (model_from a) v = a v.
Proof.
  intros Hv. destruct (a v) eqn:Hav.
  - apply model_assignment_In. unfold model_from. apply in_map_iff.
    exists v. rewrite Hav. split; [reflexivity | apply In_range; lia].
  - destruct (model_assignment (model_from a) v) eqn:Hm; [|reflexivity].
    apply model_assignment_In in Hm. unfold model_from in Hm.
    apply in_map_iff in Hm. destruct Hm as (w & Hw & Hin).
    apply In_range in Hin. destruct (a w) eqn:Haw; [|lia].
    subst w. congruence.
Qed.

Lemma model_from_bounds (a : assignment) (v : Z) :
  In v (model_from a) -> 0 < v -> v <= 729.
Proof.
  unfold model_from. intros Hin Hv. apply in_map_iff in Hin.
  destruct Hin as (w & Hw & Hin). apply In_range in Hin.
  destruct (a w); lia.
Qed.

Lemma problem_variables (grid : Grid) (v : Z) :
  is_grid grid = true ->
  In v (variables_of (create_cell_constraints ++ create_line_constraints
                        ++ create_column_constraints
                        ++ create_box_constraints
                        ++ map unit_clause (givens grid))) ->
  1 <= v <= 729.
Proof.
  intros Hgrid.
  rewrite !app_assoc, variables_of_app, <- !app_assoc, in_app_iff.
  intros [Hin | Hin].
  - pose proof families_variables as Hall.
    rewrite forallb_forall in Hall. specialize (Hall v Hin). lia.
  - apply (variables_of_givens grid); assumption.
Qed.

End Reduction.

(** X20: the reduction is correct.  For every 9x9 grid with entries in
    [[0, 9]], some truth assignment satisfies all the clauses of
    [generate_problem] exactly when some completed grid follows the rules
    of Sudoku and keeps every given of the grid. *)
Theorem reduction_correct (grid : Grid) (clauses : ClauseBase) :
  is_grid grid = true ->
  generate_problem grid = Ok clauses ->
  (exists a, eval_base a clauses = true)
  <-> (exists sol, valid_solution sol /\ extends sol grid).
Proof.
  intros Hgrid Hgen.
  pose proof (generate_problem_Ok grid (is_grid_shape9 grid Hgrid)) as Hok.
  rewrite Hgen in Hok. apply Ok_inj in Hok. split.
  - intros [a Hsat].
    assert (Hsat' : eval_base (model_assignment (model_from a)) clauses
                    = true).
    { rewrite <- Hsat. apply eval_base_agree. intros v Hv.
      apply model_from_agree. rewrite Hok in Hv.
      apply (problem_variables grid); assumption. }
    clear Hsat.
    destruct (eval_base_families _ grid clauses Hgrid Hgen Hsat')
      as (Hcells & Hlines & Hcolumns & Hboxes & Hgivens).
    clear Hsat' Hok Hgen.
    destruct (decode_cells (model_from a) (model_from_bounds a) Hcells)
      as (g & _ & _ & Hat).
    exists g. split.
    + apply (decoded_valid _ g Hat Hlines Hcolumns Hboxes).
    + intros i j k Hi Hj Hk Hne.
      pose proof (is_grid_entry grid i j k Hgrid Hk) as Hk09.
      apply (decode_cells_iff _ g i j k Hat); try assumption; try lia.
      assert (Hunit : eval_clause (model_assignment (model_from a))
                                  [cell_to_variable i j k] = true).
      { apply Hgivens. apply in_map_iff. exists (i, j, k).
        split; [reflexivity|]. apply In_givens. auto. }
      unfold eval_clause in Hunit. cbn [existsb] in Hunit.
      rewrite orb_false_r, eval_positive in Hunit.
      * apply model_assignment_In. exact Hunit.
      * pose proof (cell_to_variable_bounds i j k Hi Hj ltac:(lia)). lia.
  - intros (sol & Hvalid & Hext).
    exists (model_assignment (model_of sol)). rewrite Hok.
    apply solution_satisfies; assumption.
Qed.

Lemma reduction_correct_witness :
  (exists a,
     eval_base a (create_cell_constraints ++ create_line_constraints
                    ++ create_column_constraints ++ create_box_constraints
                    ++ map unit_clause (givens example3)) = true)
  <-> (exists sol, valid_solution sol /\ extends sol example3).
Proof.
  apply (reduction_correct example3).
  - reflexivity.
  - apply generate_problem_Ok, is_grid_shape9. reflexivity.
Defined.

(** X21: givens that break a rule make the clause base unsatisfiable.  In
    a 9x9 grid with entries in [[0, 9]], when two different cells of one
    row, of one column or of one box hold the same nonzero entry, no truth
    assignment satisfies all the clauses of [generate_problem]. *)
Theorem conflicting_givens_unsatisfiable (grid : Grid) (clauses : ClauseBase)
        (i j i' j' k : Z) (a : assignment) :
  is_grid grid = true ->
  generate_problem grid = Ok clauses ->
  0 <= i < 9 -> 0 <= j < 9 -> 0 <= i' < 9 -> 0 <= j' < 9 ->
  grid_at grid i j = Some k -> grid_at grid i' j' = Some k -> k <> 0 ->
  (i, j) <> (i', j') ->
  (i = i' \/ j = j' \/ (i / 3 = i' / 3 /\ j / 3 = j' / 3)) ->
  eval_base a clauses = false.
Proof.
  intros Hgrid Hgen Hi Hj Hi' Hj' Hk Hk' Hne Hdiff Hsame.
  destruct (eval_base a clauses) eqn:Hsat; [exfalso | reflexivity].
  destruct (eval_base_families a grid clauses Hgrid Hgen Hsat)
    as (_ & Hlines & Hcolumns & Hboxes & Hgivens).
  clear Hsat Hgen.
  pose proof (is_grid_entry grid i j k Hgrid Hk) as Hk09.
  assert (Htrue : forall r c, 0 <= r < 9 -> 0 <= c < 9 ->
            grid_at grid r c = Some k -> a (cell_to_variable r c k) = true).
  { intros r c Hr Hc Hat.
    assert (Hunit : eval_clause a [cell_to_variable r c k] = true).
    { apply Hgivens. apply in_map_iff. exists (r, c, k).
      split; [reflexivity|]. apply In_givens. auto. }
    unfold eval_clause in Hunit. cbn [existsb] in Hunit.
    rewrite orb_false_r, eval_positive in Hunit; [assumption|].
    pose proof (cell_to_variable_bounds r c k Hr Hc ltac:(lia)). lia. }
  pose proof (Htrue i j Hi Hj Hk) as H1.
  pose proof (Htrue i' j' Hi' Hj' Hk') as H2. clear Htrue Hgivens.
  assert (Heq : cell_to_variable i j k = cell_to_variable i' j' k).
  { destruct Hsame as [<- | [<- | [Hbr Hbc]]].
    - set (vars := map (fun c => cell_to_variable i c k) (range 0 9)).
      apply (unique_at_most_one a vars); try assumption.
      + intros x Hx. apply in_map_iff in Hx. destruct Hx as (c & <- & Hc).
        apply In_range in Hc.
        pose proof (cell_to_variable_bounds i c k Hi Hc ltac:(lia)). lia.
      + apply forallb_forall. intros clause Hclause.
        apply Hlines. apply (In_line_constraints i k); (assumption || lia).
      + apply in_map_iff. exists j. split; [reflexivity | apply In_range; lia].
      + apply in_map_iff. exists j'.
        split; [reflexivity | apply In_range; lia].
    - set (vars := map (fun r => cell_to_variable r j k) (range 0 9)).
      apply (unique_at_most_one a vars); try assumption.
      + intros x Hx. apply in_map_iff in Hx. destruct Hx as (r & <- & Hr).
        apply In_range in Hr.
        pose proof (cell_to_variable_bounds r j k Hr Hj ltac:(lia)). lia.
      + apply forallb_forall. intros clause Hclause.
        apply Hcolumns. apply (In_column_constraints j k); (assumption || lia).
      + apply in_map_iff. exists i. split; [reflexivity | apply In_range; lia].
      + apply in_map_iff. exists i'.
        split; [reflexivity | apply In_range; lia].
    - assert (Hbox : forall r c, 0 <= r < 9 -> 0 <= c < 9 ->
                r / 3 = i / 3 -> c / 3 = j / 3 ->
                In (cell_to_variable r c k) (box_vars (i / 3) (j / 3) k)).
      { intros r c Hr Hc Hr3 Hc3. apply In_box_vars.
        exists (r mod 3), (c mod 3). split.
        - split; apply Z.mod_pos_bound; lia.
        - f_equal; Z.div_mod_to_equations; lia. }
      apply (unique_at_most_one a (box_vars (i / 3) (j / 3) k));
        try assumption.
      + intros x Hx. apply In_box_vars in Hx.
        destruct Hx as (r & c & [Hr Hc] & ->).
        assert (0 <= i / 3 < 3 /\ 0 <= j / 3 < 3) as [? ?]
          by (Z.div_mod_to_equations; lia).
        pose proof (cell_to_variable_bounds (i / 3 * 3 + r) (j / 3 * 3 + c) k
                      ltac:(lia) ltac:(lia) ltac:(lia)). lia.
      + apply forallb_forall. intros clause Hclause.
        apply Hboxes. apply (In_box_constraints (i / 3) (j / 3) k);
          try assumption; try lia; Z.div_mod_to_equations; lia.
      + apply Hbox; (assumption || reflexivity).
      + apply Hbox; auto. }
  apply cell_to_variable_inj in Heq; try lia.
  apply Hdiff. f_equal; lia.
Qed.

Lemma conflicting_givens_unsatisfiable_witness :
  eval_base (fun _ => true)
            (create_cell_constraints ++ create_line_constraints
               ++ create_column_constraints ++ create_box_constraints
               ++ map unit_clause (givens example)) = false.
Proof.
  apply (conflicting_givens_unsatisfiable example _ 0 0 0 2 5).
  - reflexivity.
  - apply generate_problem_Ok, is_grid_shape9. reflexivity.
  - lia.
  - lia.
  - lia.
  - lia.
  - reflexivity.
  - reflexivity.
  - lia.
  - intros H. injection H as H. lia.
  - left. reflexivity.
Defined.

(** ** The reference grid has no solution, and the solve says so *)

Section Reference.

Variable file_write : string -> string -> result unit.
Variable subprocess_run : list string -> result string.
Variable splitlines : string -> list string.
Variable int : string -> result Z.

(** C5: the clause base that [generate_problem] builds from [example],
    whose first row holds the digit 5 twice, is unsatisfiable: the base is
    built without error, no truth assignment satisfies all of its clauses,
    and no valid grid completes [example].  So the solve reports
    Unsatisfiable rather than a solution: once the file is written,
    whatever a solver that only returns models of the base answers,
    [solve_sudoku] prints the line that announces the run and then
    [Ce Sudoku n'a pas de solution.], and returns [(False, None)]; and
    with such a solver [solve_sudoku] returns a solution in no case,
    written file or not, launched solver or not. *)
Theorem example_unsatisfiable (cmd filename : string) :
  exists clauses,
    generate_problem example = Ok clauses
    /\ (forall a, eval_base a clauses = false)
    /\ ~ (exists sol, valid_solution sol /\ extends sol example)
    /\ (forall satisfiable model,
          file_write filename (clause_to_dimacs clauses 729) = Ok tt ->
          exec_gophersat subprocess_run splitlines int filename cmd
          = Ok (satisfiable, model) ->
          (satisfiable = true ->
           eval_base (model_assignment model) clauses = true) ->
          satisfiable = false
          /\ solve_sudoku file_write subprocess_run splitlines int example
                          cmd filename
             = ([WriteFile filename (clause_to_dimacs clauses 729);
                 Print (nl ++ "Exécution de : " ++ cmd ++ " "
                           ++ filename)%string;
                 Print "Ce Sudoku n'a pas de solution."],
                Ok (false, None)))
    /\ ((forall model,
           exec_gophersat subprocess_run splitlines int filename cmd
           = Ok (true, model) ->
           eval_base (model_assignment model) clauses = true) ->
        forall solution,
          snd (solve_sudoku file_write subprocess_run splitlines int example
                            cmd filename)
          <> Ok (true, solution)).
Proof.
  pose proof (generate_problem_Ok example
                (is_grid_shape9 example eq_refl)) as Hok.
  eexists. split; [exact Hok|]. split; [|split; [|split]].
  - intros a. exact (example_conflict a _ Hok).
  - intros (sol & Hvalid & Hext).
    pose proof (solution_satisfies example sol eq_refl Hvalid Hext) as Hsat.
    rewrite (example_conflict _ _ Hok) in Hsat. discriminate Hsat.
  - intros satisfiable model Hwrite Hexec Hsound.
    assert (Hfalse : satisfiable = false).
    { destruct satisfiable; [|reflexivity].
      specialize (Hsound eq_refl).
      rewrite (example_conflict _ _ Hok) in Hsound. discriminate Hsound. }
    split; [exact Hfalse|]. clear Hsound. rewrite Hfalse in Hexec.
    unfold solve_sudoku, write_dimacs_file.
    rewrite Hok, Hwrite, Hexec. reflexivity.
  - intros Hsound solution.
    unfold solve_sudoku, write_dimacs_file. rewrite Hok.
    destruct (file_write filename _) as [u|e];
      [|intros H; discriminate H].
    destruct (exec_gophersat subprocess_run splitlines int filename cmd)
      as [[[] model]|e] eqn:Hexec;
      [|intros H; discriminate H|intros H; discriminate H].
    exfalso. specialize (Hsound model eq_refl).
    rewrite (example_conflict _ _ Hok) in Hsound. discriminate Hsound.
Qed.

End Reference.

Lemma example_unsatisfiable_witness :
  exists clauses,
    generate_problem example = Ok clauses
    /\ eval_base (fun _ => true) clauses = false
    /\ solve_sudoku write_ok run_unsat splitlines_stub int_stub example
                    "gophersat" "sudoku.cnf"
       = ([WriteFile "sudoku.cnf" (clause_to_dimacs clauses 729);
           Print (nl ++ "Exécution de : gophersat sudoku.cnf")%string;
           Print "Ce Sudoku n'a pas de solution."],
          Ok (false, None)).
Proof.
  destruct (example_unsatisfiable write_ok run_unsat splitlines_stub
              int_stub "gophersat" "sudoku.cnf")
    as (clauses & Hgen & Hunsat & _ & Hsolve & _).
  exists clauses. split; [exact Hgen|]. split; [apply Hunsat|].
  apply (Hsolve false []).
  - reflexivity.
  - reflexivity.
  - intros H. discriminate H.
Defined.
